(** * JDBot: the locale resolver of [utils/command_tree.py]

    A shallow embedding of [JDCommandTranslator] (the loader, the
    per-locale cache and the [translate] dispatcher) and the proofs of
    its specified properties.

    Modelling conventions.
    - Python values that the translator handles (the result of
      [json.loads], the values of [locale_str.extras], and what
      [translate] returns) are terms of [pyval].  A dict parsed from JSON
      has string keys; it is kept as an association list in insertion
      order and looked up by its first matching key.
    - Python [str] is Rocq's [string]; text outside ASCII is out of scope.
    - An exception is a value of [exn]; a computation that may raise
      returns a [result].  The translator object is threaded through the
      stateful methods by the monad [M]; a mutation made before an
      exception is raised stays in the state, as in Python.
    - [discord.Locale] is an enumeration of a library that is not part of
      the repository: the list of its values is a field of the class
      [External].  So is [json.loads].
    - The coroutines never suspend between two accesses of the translator
      ([await] is only applied to the translator's own methods), so each
      method is modelled as one atomic state transformer. *)

From Stdlib Require Import ZArith String Ascii List Bool Lia.
From Stdlib Require Import Floats.SpecFloat.
From Stdlib Require Import Decimal DecimalString DecimalNat HexString.
From stdpp Require Import gmap strings list fin_maps.

Set Warnings "-register-all".

Open Scope string_scope.
Open Scope Z_scope.

(** ** Python values *)

Inductive pyval : Type :=
| PNone
| PBool (b : bool)
| PInt (z : Z)
| PFloat (f : spec_float)
| PStr (s : string)
| PList (l : list pyval)
| PDict (d : list (string * pyval)).

(** The exceptions that the translator can raise.  [InvalidLiteral s] is
    the [ValueError] of [int(s)]; [JSONDecodeError] (a subclass of
    [ValueError]) is the one of [json.loads]; [OSError path] is any failure
    of [os.listdir] or [open]. *)
Inductive exn : Type :=
| ValueError (msg : string)
| InvalidLiteral (s : string)
| JSONDecodeError
| KeyError (key : pyval)
| IndexError
| TypeError
| AttributeError
| OSError (path : string).

Inductive result (A : Type) : Type :=
| Ret (a : A)
| Raise (e : exn).
Arguments Ret {A} a.
Arguments Raise {A} e.

#[global] Instance result_ret : MRet result := fun A a => Ret a.
#[global] Instance result_bind : MBind result := fun A B f r =>
  match r with
  | Ret a => f a
  | Raise e => Raise e
  end.

(** [bool(v)]: Python's truth value. *)
Definition truthy (v : pyval) : bool :=
  match v with
  | PNone => false
  | PBool b => b
  | PInt z => negb (z =? 0)
  | PFloat (S754_zero _) => false
  | PFloat _ => true
  | PStr EmptyString => false
  | PStr _ => true
  | PList [] => false
  | PList _ => true
  | PDict [] => false
  | PDict _ => true
  end.

(** [a or b] *)
Definition py_or (a b : pyval) : pyval := if truthy a then a else b.

(** The first binding of a key in a parsed dict. *)
Fixpoint assoc (k : string) (d : list (string * pyval)) : option pyval :=
  match d with
  | [] => None
  | (k', v) :: d' => if String.eqb k k' then Some v else assoc k d'
  end.

(** [d.get(k, default)].  Only a dict has the method; a list or a dict
    used as key is unhashable; a key that is not a string is hashable but
    equal to no key of a dict parsed from JSON. *)
Definition py_get (d : pyval) (k : pyval) (default : pyval) : result pyval :=
  match d with
  | PDict kvs =>
      match k with
      | PStr s => Ret (from_option id default (assoc s kvs))
      | PList _ | PDict _ => Raise TypeError
      | _ => Ret default
      end
  | _ => Raise AttributeError
  end.

(** Position [i] of a sequence of length [n], counted from the end when
    negative. *)
Definition norm_index (n : nat) (i : Z) : option nat :=
  if (0 <=? i) && (i <? Z.of_nat n) then Some (Z.to_nat i)
  else if (i <? 0) && (0 <=? Z.of_nat n + i) then Some (Z.to_nat (Z.of_nat n + i))
  else None.

Definition seq_index {A : Type} (l : list A) (i : Z) : result A :=
  match norm_index (List.length l) i with
  | Some n =>
      match l !! n with
      | Some x => Ret x
      | None => Raise IndexError
      end
  | None => Raise IndexError
  end.

(** An integer index: an [int], or a [bool] (a subclass of [int]). *)
Definition as_index (i : pyval) : option Z :=
  match i with
  | PInt z => Some z
  | PBool b => Some (Z.b2z b)
  | _ => None
  end.

(** [x[i]] *)
Definition py_getitem (x : pyval) (i : pyval) : result pyval :=
  match x with
  | PList l =>
      match as_index i with
      | Some z => seq_index l z
      | None => Raise TypeError
      end
  | PStr s =>
      match as_index i with
      | Some z => c ← seq_index (list_ascii_of_string s) z;
                  Ret (PStr (String c EmptyString))
      | None => Raise TypeError
      end
  | PDict kvs =>
      match i with
      | PStr k =>
          match assoc k kvs with
          | Some v => Ret v
          | None => Raise (KeyError i)
          end
      | PList _ | PDict _ => Raise TypeError
      | _ => Raise (KeyError i)
      end
  | _ => Raise TypeError
  end.

(** ** Strings *)

(** [s.endswith(suffix)] *)
Definition endswith (s suffix : string) : bool :=
  let n := String.length s in
  let m := String.length suffix in
  (m <=? n)%nat && String.eqb (substring (n - m) m s) suffix.

(** [s.startswith(p)] *)
Definition startswith (s p : string) : bool := String.prefix p s.

(** [s.split(sep)] for a separator of one character. *)
Fixpoint split (sep : ascii) (s : string) : list string :=
  match s with
  | EmptyString => [EmptyString]
  | String c s' =>
      if Ascii.eqb c sep then EmptyString :: split sep s'
      else match split sep s' with
           | w :: ws => String c w :: ws
           | [] => [String c EmptyString]
           end
  end.

Definition lower_ascii (c : ascii) : ascii :=
  let n := nat_of_ascii c in
  if (65 <=? n)%nat && (n <=? 90)%nat then ascii_of_nat (n + 32) else c.

(** [s.lower()] *)
Fixpoint lower (s : string) : string :=
  match s with
  | EmptyString => EmptyString
  | String c s' => String (lower_ascii c) (lower s')
  end.

(** [int(s)] in base 10, [None] when it raises [ValueError]: blanks
    around, an optional sign, then digits with single underscores between
    them; more than 4300 digits are refused. *)
Definition is_space (c : ascii) : bool :=
  let n := nat_of_ascii c in
  ((9 <=? n)%nat && (n <=? 13)%nat) || (n =? 32)%nat.

Definition digit_value (c : ascii) : option Z :=
  let n := nat_of_ascii c in
  if (48 <=? n)%nat && (n <=? 57)%nat then Some (Z.of_nat (n - 48)) else None.

Fixpoint lstrip (s : list ascii) : list ascii :=
  match s with
  | c :: s' => if is_space c then lstrip s' else s
  | [] => []
  end.

Definition strip (s : list ascii) : list ascii := rev (lstrip (rev (lstrip s))).

Fixpoint parse_digits (acc : Z) (count : nat) (after_digit : bool) (s : list ascii)
  : option (Z * nat) :=
  match s with
  | [] => if after_digit then Some (acc, count) else None
  | c :: s' =>
      match digit_value c with
      | Some d => parse_digits (10 * acc + d) (S count) true s'
      | None =>
          if Ascii.eqb c "_" && after_digit then parse_digits acc count false s'
          else None
      end
  end.

Definition max_str_digits : nat := 4300.

Definition parse_unsigned (s : list ascii) : option Z :=
  match parse_digits 0 0 false s with
  | Some (z, count) => if (count <=? max_str_digits)%nat then Some z else None
  | None => None
  end.

Definition py_int (s : string) : option Z :=
  match strip (list_ascii_of_string s) with
  | c :: r =>
      if Ascii.eqb c "-" then Z.opp <$> parse_unsigned r
      else if Ascii.eqb c "+" then parse_unsigned r
      else parse_unsigned (c :: r)
  | [] => None
  end.

(** [int(s)] as a computation. *)
Definition int_of_str (s : string) : result Z :=
  match py_int s with
  | Some z => Ret z
  | None => Raise (InvalidLiteral s)
  end.

(** The text is ASCII: the scope in which [py_int] is [int()]. *)
Definition is_ascii (s : string) : bool :=
  forallb (fun c => (nat_of_ascii c <? 128)%nat) (list_ascii_of_string s).

(** [needle in s] *)
Fixpoint contains (needle s : string) : bool :=
  String.prefix needle s ||
  match s with
  | EmptyString => false
  | String _ s' => contains needle s'
  end.

(** ** The world outside the repository *)

(** [discord.Locale] is identified with the string value of its members. *)
Abbreviation Locale := string (only parsing).

Class External : Type := {
  (** the values of the members of [discord.Locale] *)
  Locale_values : list string;
  (** [json.loads]; [None] when the text is not JSON *)
  json_loads : string -> option pyval
}.

(** [discord.Locale(value)]; [None] stands for its [ValueError]. *)
Definition discord_Locale `{External} (value : string) : option Locale :=
  if bool_decide (value ∈ Locale_values) then Some value else None.

(** What the file system answers at the time of a call. *)
Record filesystem : Type := {
  (** [os.listdir(path)]; [None] when it raises *)
  os_listdir : string -> option (list string);
  (** [open(path).read()]; [None] when [open] raises *)
  read_file : string -> option string
}.

(** ** The translator object *)

(** An object built by [json.loads]: its identity and its value (which
    nothing mutates). *)
Record pyobj : Type := { obj_id : nat; obj_val : pyval }.

(** [LOCALE_TO_FILE] and [cached_locales] are the two dicts of the class
    and of its instance; [opened] (the paths read so far, newest first)
    and [next_id] (the identity of the next object built) instrument
    [open] and [json.loads]. *)
Record translator : Type := {
  LOCALE_TO_FILE : gmap Locale string;
  cached_locales : gmap Locale pyobj;
  opened : list string;
  next_id : nat
}.

Definition LOCALS_PATH : string := "./locales".

(** The state of [JDCommandTranslator()] in a fresh process. *)
Definition init : translator :=
  {| LOCALE_TO_FILE := ∅; cached_locales := ∅; opened := []; next_id := 0 |}.

(** The monad of the methods: a result and the translator afterwards. *)
Definition M (A : Type) : Type := translator -> result A * translator.

#[global] Instance M_ret : MRet M := fun A a t => (Ret a, t).
#[global] Instance M_bind : MBind M := fun A B f m t =>
  match m t with
  | (Ret a, t') => f a t'
  | (Raise e, t') => (Raise e, t')
  end.

Definition raise {A : Type} (e : exn) : M A := fun t => (Raise e, t).
Definition lift {A : Type} (r : result A) : M A := fun t => (r, t).
Definition gets {A : Type} (f : translator -> A) : M A := fun t => (Ret (f t), t).
Definition modify (f : translator -> translator) : M unit := fun t => (Ret tt, f t).

Definition set_LOCALE_TO_FILE (locale : Locale) (file : string) (t : translator) : translator :=
  {| LOCALE_TO_FILE := <[locale := file]> (LOCALE_TO_FILE t);
     cached_locales := cached_locales t;
     opened := opened t;
     next_id := next_id t |}.

Definition set_cached_locales (locale : Locale) (data : pyobj) (t : translator) : translator :=
  {| LOCALE_TO_FILE := LOCALE_TO_FILE t;
     cached_locales := <[locale := data]> (cached_locales t);
     opened := opened t;
     next_id := next_id t |}.

(** [open(path)] followed by [f.read()] *)
Definition open_read (fs : filesystem) (path : string) : M string := fun t =>
  match read_file fs path with
  | Some text =>
      (Ret text, {| LOCALE_TO_FILE := LOCALE_TO_FILE t;
                    cached_locales := cached_locales t;
                    opened := path :: opened t;
                    next_id := next_id t |})
  | None => (Raise (OSError path), t)
  end.

(** [json.loads(text)]: a new object on success. *)
Definition loads `{External} (text : string) : M pyobj := fun t =>
  match json_loads text with
  | Some v =>
      (Ret {| obj_id := next_id t; obj_val := v |},
       {| LOCALE_TO_FILE := LOCALE_TO_FILE t;
          cached_locales := cached_locales t;
          opened := opened t;
          next_id := S (next_id t) |})
  | None => (Raise JSONDecodeError, t)
  end.

Definition path_of (file : string) : string := LOCALS_PATH +:+ "/" +:+ file.

(** [JDCommandTranslator.get_locale] *)
Definition get_locale `{External} (fs : filesystem) (locale : Locale) : M pyobj :=
  cached ← gets cached_locales;
  match cached !! locale with
  | Some data => mret data
  | None =>
      index ← gets LOCALE_TO_FILE;
      match index !! locale with
      | None => raise (KeyError (PStr locale))
      | Some file =>
          text ← open_read fs (path_of file);
          data ← loads text;
          _ ← modify (set_cached_locales locale data);
          mret data
      end
  end.

Definition invalid_locale_file_msg (file : string) : string :=
  "Invalid locale file " +:+ file +:+ ". Expected a file like `en-US.json`.".

(** [file.split(".")[0]] *)
Definition stem (file : string) : string := hd EmptyString (split "." file).

(** The body of the [for] loop of [load], for one directory entry. *)
Definition load_file `{External} (fs : filesystem) (file : string) : M unit :=
  if endswith file ".json" then
    match discord_Locale (stem file) with
    | None => raise (ValueError (invalid_locale_file_msg file))
    | Some locale =>
        _ ← modify (set_LOCALE_TO_FILE locale file);
        _ ← get_locale fs locale;
        mret tt
    end
  else mret tt.

Fixpoint load_files `{External} (fs : filesystem) (files : list string) : M unit :=
  match files with
  | [] => mret tt
  | file :: rest => _ ← load_file fs file; load_files fs rest
  end.

(** [JDCommandTranslator.load] *)
Definition load `{External} (fs : filesystem) : M unit :=
  match os_listdir fs LOCALS_PATH with
  | Some files => load_files fs files
  | None => raise (OSError LOCALS_PATH)
  end.

(** [JDCommandTranslator.unload] *)
Definition unload : M unit :=
  modify (fun t => {| LOCALE_TO_FILE := ∅;
                      cached_locales := ∅;
                      opened := opened t;
                      next_id := next_id t |}).

(** [JDCommandTranslator.get_command] *)
Definition get_command `{External} (fs : filesystem) (locale : Locale) (command_name : pyval)
  : M pyval :=
  data ← get_locale fs locale;
  lift (py_get (obj_val data) command_name PNone).

(** ** The arguments of [translate] *)

(** [discord.app_commands.TranslationContextLocation] *)
Module TranslationContextLocation.
Inductive t : Type :=
| command_name
| command_description
| group_name
| group_description
| parameter_name
| parameter_description
| choice_name
| other.

#[global] Instance eq_dec : EqDecision t.
Proof. solve_decision. Defined.

(** [str(location)] *)
Definition str (l : t) : string :=
  "TranslationContextLocation." +:+
  match l with
  | command_name => "command_name"
  | command_description => "command_description"
  | group_name => "group_name"
  | group_description => "group_description"
  | parameter_name => "parameter_name"
  | parameter_description => "parameter_description"
  | choice_name => "choice_name"
  | other => "other"
  end.
End TranslationContextLocation.

(** [context.data]: the four classes that [translate] tests for, with the
    qualified name that it reads from each, or any other value. *)
Inductive context_data : Type :=
| DataCommand (qualified_name : string)
| DataContextMenu (qualified_name : string)
| DataGroup (qualified_name : string)
| DataParameter (command_qualified_name : string)
| DataOther (v : pyval).

Record TranslationContext : Type := {
  location : TranslationContextLocation.t;
  data : context_data
}.

Record locale_str : Type := {
  message : string;
  extras : gmap string pyval
}.

(** [string.extras.get(k)] *)
Definition extras_get (lstr : locale_str) (k : string) : pyval :=
  default PNone (extras lstr !! k).

(** ** The error messages of [translate] *)

Definition missing_command_msg (l : TranslationContextLocation.t) : string :=
  "locale_str for location " +:+ TranslationContextLocation.str l +:+
  " requires you to pass the" +:+
  "command name in extras. Like `locale_str('key', command='command name')`" +:+
  " or a command/parameter as context.data.".

Definition missing_index_msg : string :=
  "Choice name requires you to pass the index in extras. Like `locale_str('key', index=0)`".

Definition missing_option_msg : string :=
  "Choice name requires you to pass the option name in extras. Like `locale_str('key', option='option')`".

Definition missing_key_msg : string :=
  "locale_str for location other requires you to pass the type in extras. Like `locale_str('string', key='type')`".

Definition invalid_embed_key_msg (key : string) : string :=
  "Invalid type for embed. Expected `embed:<index>:<field>`. Got " +:+ key +:+
  ". Example: `embed:0:title`.".

Definition invalid_embed_fields_key_msg (key : string) : string :=
  "Invalid type for embed. Expected `embed:<index>:fields:<field_index>:name`. Got " +:+ key +:+
  ". Example: `embed:0:fields:0:name`.".

Definition invalid_field_type_msg (field_type : string) : string :=
  "Field type " +:+ field_type +:+ " is not valid. Expected `name` or `value`.".

Definition invalid_field_msg (field : string) : string :=
  "Field " +:+ field +:+
  " is not valid. Expected `title`, `description`, `footer`, `author` or `fields`.".

(** ** The dispatch of [translate] on a command document *)

(** [d.get(k)] and [d.get(k, default)] for a literal key *)
Definition get (d : pyval) (k : string) : result pyval := py_get d (PStr k) PNone.
Definition get_or (d : pyval) (k : string) (default : pyval) : result pyval :=
  py_get d (PStr k) default.

(** The branch [elif field == "fields"] *)
Definition translate_embed_fields (embed : pyval) (key : string) (fields_extra : list string)
  : result pyval :=
  match fields_extra with
  | [] => Raise (ValueError (invalid_embed_fields_key_msg key))
  | [field_idx; field_type] =>
      field_idx ← int_of_str field_idx;
      fields ← get_or embed "fields" (PList [PDict []]);
      field ← py_getitem fields (PInt field_idx);
      if negb (truthy field) then Ret PNone
      else if String.eqb field_type "name" then get field "name"
      else if String.eqb field_type "value" then get field "value"
      else Raise (ValueError (invalid_field_type_msg field_type))
  | _ => Raise (ValueError (invalid_embed_fields_key_msg key))
  end.

(** The branch [if key.startswith("embed")] *)
Definition translate_embed (command : pyval) (key : string) : result pyval :=
  match split ":" key with
  | _ :: idx :: field :: fields_extra =>
      idx ← int_of_str idx;
      let field := lower field in
      embeds ← get_or command "embeds" (PList [PDict []]);
      embed ← py_getitem embeds (PInt idx);
      if negb (truthy embed) then Ret PNone
      else if String.eqb field "title" then get embed "title"
      else if String.eqb field "description" then get embed "description"
      else if String.eqb field "footer" then
        footer ← get_or embed "footer" (PDict []); get footer "text"
      else if String.eqb field "author" then
        author ← get_or embed "author" (PDict []); get author "name"
      else if String.eqb field "fields" then translate_embed_fields embed key fields_extra
      else Raise (ValueError (invalid_field_msg field))
  | _ => Raise (ValueError (invalid_embed_key_msg key))
  end.

(** The branch [elif context.location is TranslationContextLocation.other] *)
Definition translate_other (command : pyval) (lstr : locale_str) : result pyval :=
  let key := py_or (extras_get lstr "key") (PStr EmptyString) in
  if negb (truthy key) then Raise (ValueError missing_key_msg)
  else match key with
       | PStr key =>
           if startswith key "embed" then translate_embed command key
           else if String.eqb key "content" then get command "content"
           else Ret PNone
       | _ => Raise AttributeError
       end.

(** The branch [elif context.location is TranslationContextLocation.choice_name] *)
Definition translate_choice (command : pyval) (lstr : locale_str) : result pyval :=
  let idx := extras_get lstr "index" in
  match idx with
  | PNone => Raise (ValueError missing_index_msg)
  | _ =>
      let option_name := extras_get lstr "option" in
      if negb (truthy option_name) then Raise (ValueError missing_option_msg)
      else
        options ← get_or command "options" (PDict []);
        option ← py_get options option_name (PDict []);
        choices ← get option "choices";
        if negb (truthy choices) then Ret PNone
        else py_getitem choices idx
  end.

(** The branch of [parameter_name] and [parameter_description] *)
Definition translate_parameter (command : pyval) (lstr : locale_str)
    (loc : TranslationContextLocation.t) : result pyval :=
  options ← get_or command "options" (PDict []);
  parameter ← py_get options (PStr (message lstr)) PNone;
  if negb (truthy parameter) then Ret PNone
  else if bool_decide (loc = TranslationContextLocation.parameter_name)
       then get parameter "name"
       else get parameter "description".

(** The chain of [if]/[elif] on [context.location], from the first test on;
    a location that no test takes falls off the end of the function. *)
Definition dispatch (command : pyval) (lstr : locale_str)
    (loc : TranslationContextLocation.t) : result pyval :=
  if bool_decide (loc ∈ [TranslationContextLocation.command_name;
                          TranslationContextLocation.parameter_name])
  then get command "name"
  else if bool_decide (loc ∈ [TranslationContextLocation.command_description;
                               TranslationContextLocation.group_description])
  then get command "description"
  else if bool_decide (loc ∈ [TranslationContextLocation.parameter_name;
                               TranslationContextLocation.parameter_description])
  then translate_parameter command lstr loc
  else if bool_decide (loc = TranslationContextLocation.choice_name)
  then translate_choice command lstr
  else if bool_decide (loc = TranslationContextLocation.other)
  then translate_other command lstr
  else Ret PNone.

(** The name read from [context.data], [None] when it gives none. *)
Definition data_command_name (d : context_data) : pyval :=
  match d with
  | DataCommand qualified_name
  | DataContextMenu qualified_name
  | DataGroup qualified_name => PStr qualified_name
  | DataParameter command_qualified_name => PStr command_qualified_name
  | DataOther _ => PNone
  end.

(** [command_name = string.extras.get("command") or command_name] *)
Definition resolve_command_name (lstr : locale_str) (context : TranslationContext) : pyval :=
  py_or (extras_get lstr "command") (data_command_name (data context)).

(** [JDCommandTranslator.translate].  The bare [raise ValueError] of the
    first test of the key has an empty message.  The second test
    [if not command_name], after it, repeats the first one and cannot
    fire: it is left out. *)
Definition translate `{External} (fs : filesystem) (lstr : locale_str) (locale : Locale)
    (context : TranslationContext) : M pyval :=
  index ← gets LOCALE_TO_FILE;
  match index !! locale with
  | None => mret PNone
  | Some _ =>
      let command_name := resolve_command_name lstr context in
      if negb (truthy command_name)
      then raise (ValueError (missing_command_msg (location context)))
      else if bool_decide (location context = TranslationContextLocation.other)
                && negb (truthy (extras_get lstr "key"))
      then raise (ValueError EmptyString)
      else
        command ← get_command fs locale command_name;
        if negb (truthy command) then mret PNone
        else lift (dispatch command lstr (location context))
  end.

(** ** Sequences of calls *)

Inductive call : Type :=
| CallLoad
| CallUnload
| CallGetLocale (locale : Locale)
| CallGetCommand (locale : Locale) (command_name : pyval)
| CallTranslate (lstr : locale_str) (locale : Locale) (context : TranslationContext).

(** The translator after a call, whether it returned or raised. *)
Definition exec `{External} (fs : filesystem) (c : call) (t : translator) : translator :=
  match c with
  | CallLoad => snd (load fs t)
  | CallUnload => snd (unload t)
  | CallGetLocale locale => snd (get_locale fs locale t)
  | CallGetCommand locale command_name => snd (get_command fs locale command_name t)
  | CallTranslate lstr locale context => snd (translate fs lstr locale context t)
  end.

(** Each call meets the file system of its time. *)
Fixpoint exec_all `{External} (cs : list (filesystem * call)) (t : translator) : translator :=
  match cs with
  | [] => t
  | (fs, c) :: cs' => exec_all cs' (exec fs c t)
  end.

Definition is_unload (c : call) : bool :=
  match c with CallUnload => true | _ => false end.

Definition is_load (c : call) : bool :=
  match c with CallLoad => true | _ => false end.

(** ** Reading the state *)

(** The locale under which [load] registers a file, when it is one. *)
Definition locale_of_file `{External} (file : string) : option Locale :=
  discord_Locale (stem file).

Fixpoint count (p : string) (l : list string) : nat :=
  match l with
  | [] => 0%nat
  | q :: l' => ((if String.eqb p q then 1 else 0) + count p l')%nat
  end.

(** How many times the file of the locales directory was read so far. *)
Definition reads_of (file : string) (t : translator) : nat :=
  count (path_of file) (opened t).

(** Every file of the index is registered under the locale of its name. *)
Definition index_wf `{External} (t : translator) : Prop :=
  forall L file, LOCALE_TO_FILE t !! L = Some file -> locale_of_file file = Some L.

(** The locale is cached, with this object. *)
Definition settled `{External} (L : Locale) (data : pyobj) (t : translator) : Prop :=
  index_wf t /\ cached_locales t !! L = Some data.

(** From [t] to [t1] the locale kept its object and none of its files was
    read. *)
Definition kept `{External} (L : Locale) (data : pyobj) (t t1 : translator) : Prop :=
  settled L data t1 /\
  forall f, locale_of_file f = Some L -> reads_of f t1 = reads_of f t.

(** The state of a [load] that started in [t0], between two files: a
    file was read once more than in [t0] at most, and not at all while
    its locale is not cached. *)
Definition loading `{External} (t0 s : translator) : Prop :=
  index_wf s /\
  (forall f L, locale_of_file f = Some L ->
     (reads_of f s <= reads_of f t0 + 1)%nat /\
     (cached_locales s !! L = None -> reads_of f s = reads_of f t0)).

(** A file that [load] takes in: if its name ends in [.json], the name
    starts with a locale, the file can be read and its text is JSON. *)
Definition valid `{External} (fs : filesystem) (f : string) : Prop :=
  endswith f ".json" = true ->
  exists L text v, locale_of_file f = Some L /\
    read_file fs (path_of f) = Some text /\ json_loads text = Some v.

(** The index and the cache of [t1] hold the locales of those of [t]. *)
Definition grows (t t1 : translator) : Prop :=
  (forall L, is_Some (LOCALE_TO_FILE t !! L) -> is_Some (LOCALE_TO_FILE t1 !! L)) /\
  (forall L, is_Some (cached_locales t !! L) -> is_Some (cached_locales t1 !! L)).

(** [translate] got as far as its dispatch: the locale is registered, a
    command name was resolved, the key of an [other] location is there,
    and [get_command] returned a document (leaving the translator [t']). *)
Definition finds_document `{External} (fs : filesystem) (lstr : locale_str) (locale : Locale)
    (context : TranslationContext) (t : translator) (command : pyval) (t' : translator) : Prop :=
  (exists file, LOCALE_TO_FILE t !! locale = Some file) /\
  truthy (resolve_command_name lstr context) = true /\
  (location context = TranslationContextLocation.other ->
   truthy (extras_get lstr "key") = true) /\
  get_command fs locale (resolve_command_name lstr context) t = (Ret command, t') /\
  truthy command = true.

(** ** An example world *)

Definition ping_fields : list pyval :=
  [PDict [("name", PStr "n0"); ("value", PStr "v0")];
   PDict [];
   PDict [("name", PStr "n2"); ("value", PStr "v2")]].

Definition ping_embed : list (string * pyval) :=
  [("title", PStr "Pong");
   ("footer", PDict [("text", PStr "bye")]);
   ("fields", PList ping_fields)].

Definition mode_entry : list (string * pyval) :=
  [("name", PStr "mode"); ("choices", PList [PStr "fast"; PStr "slow"])].

Definition level_entry : list (string * pyval) :=
  [("name", PStr "level"); ("choices", PList [])].

Definition ping_options : list (string * pyval) :=
  [("target", PDict [("name", PStr "cible"); ("description", PStr "Qui saluer")]);
   ("mode", PDict mode_entry);
   ("level", PDict level_entry)].

Definition ping_entries : list (string * pyval) :=
  [("name", PStr "Ping!");
   ("description", PStr "Checks latency");
   ("options", PDict ping_options);
   ("embeds", PList [PDict ping_embed]);
   ("content", PStr "Pong {ms}")].

Definition ping_doc : pyval := PDict ping_entries.

(** A command without an [embeds] entry, and one whose list is empty. *)
Definition bare_entries : list (string * pyval) := [("name", PStr "Bare")].
Definition bare_doc : pyval := PDict bare_entries.
Definition hollow_entries : list (string * pyval) :=
  [("name", PStr "Hollow"); ("embeds", PList [])].
Definition hollow_doc : pyval := PDict hollow_entries.

Definition en_US_doc : pyval :=
  PDict [("ping", ping_doc); ("bare", bare_doc); ("hollow", hollow_doc)].

(** The texts of the example files are named, not spelled out. *)
Definition example_external : External := {|
  Locale_values :=
    ["id"; "da"; "de"; "en-GB"; "en-US"; "es-ES"; "es-419"; "fr"; "hr"; "it"; "lt";
     "hu"; "nl"; "no"; "pl"; "pt-BR"; "ro"; "fi"; "sv-SE"; "vi"; "tr"; "cs"; "el";
     "bg"; "ru"; "uk"; "hi"; "th"; "zh-CN"; "ja"; "zh-TW"; "ko"];
  json_loads := fun text =>
    if String.eqb text "<en-US>" then Some en_US_doc
    else if String.eqb text "<fr>" then Some (PDict [])
    else None
|}.

Definition example_read (path : string) : option string :=
  if String.eqb path "./locales/en-US.json" then Some "<en-US>"
  else if String.eqb path "./locales/fr.json" then Some "<fr>"
  else if String.eqb path "./locales/klingon.json" then Some "<tlh>"
  else None.

Definition example_fs : filesystem := {|
  os_listdir := fun path =>
    if String.eqb path "./locales" then Some ["en-US.json"; "README.md"; "fr.json"] else None;
  read_file := example_read
|}.

(** The same directory with a file that names no locale. *)
Definition broken_fs : filesystem := {|
  os_listdir := fun path =>
    if String.eqb path "./locales"
    then Some ["en-US.json"; "klingon.json"; "fr.json"] else None;
  read_file := example_read
|}.

(** The translator after [load()] in the example world. *)
Definition loaded : translator := snd (load (H := example_external) example_fs init).

Definition on_command (name : string) (loc : TranslationContextLocation.t)
  : TranslationContext :=
  {| location := loc; data := DataCommand name |}.

Definition with_key (key : string) : locale_str :=
  {| message := "text"; extras := {[ "key" := PStr key ]} |}.

Definition for_command (command : string) : locale_str :=
  {| message := "text"; extras := {[ "command" := PStr command ]} |}.

Definition parameter (name : string) : locale_str := {| message := name; extras := ∅ |}.

Definition choice (option_name : string) (index : Z) : locale_str :=
  {| message := "text";
     extras := {[ "option" := PStr option_name; "index" := PInt index ]} |}.

(** ** What a listing registers *)

(** The file is one that [load] registers under the locale. *)
Definition file_of_locale `{External} (L : Locale) (file : string) : bool :=
  endswith file ".json" && bool_decide (locale_of_file file = Some L).

(** The first and the last file of a listing that [load] registers under
    the locale. *)
Definition first_file `{External} (L : Locale) (files : list string) : option string :=
  List.find (file_of_locale L) files.

Definition last_file `{External} (L : Locale) (files : list string) : option string :=
  List.find (file_of_locale L) (rev files).

(** The index after the assignments [LOCALE_TO_FILE[locale] = file] of a
    [load] that goes through the listing. *)
Definition register `{External} (index : gmap Locale string) (file : string)
  : gmap Locale string :=
  if endswith file ".json" then
    match locale_of_file file with
    | Some locale => <[locale := file]> index
    | None => index
    end
  else index.

Definition register_all `{External} (files : list string) (index : gmap Locale string)
  : gmap Locale string :=
  fold_left register files index.

(** The translator with another index. *)
Definition with_index (index : gmap Locale string) (t : translator) : translator :=
  {| LOCALE_TO_FILE := index;
     cached_locales := cached_locales t;
     opened := opened t;
     next_id := next_id t |}.

(** [c in s] for one character *)
Fixpoint has_char (c : ascii) (s : string) : bool :=
  match s with
  | EmptyString => false
  | String x s' => Ascii.eqb x c || has_char c s'
  end.

(** The result is not the error that carries [missing_key_msg]. *)
Definition other_than_missing_key {A : Type} (r : result A) : Prop :=
  match r with
  | Raise (ValueError msg) => msg <> missing_key_msg
  | _ => True
  end.

(** ** The keys that [translate_embeds] builds *)

(** [str(n)], as an f-string writes an index of [enumerate]. *)
Definition str_of_nat (n : nat) : string := NilZero.string_of_uint (Nat.to_uint n).

(** [f"embed:{idx}:title"] and the like *)
Definition embed_key (idx : nat) (field : string) : string :=
  "embed:" +:+ str_of_nat idx +:+ ":" +:+ field.

(** [f"embed:{idx}:fields:{field_idx}:name"] and [...:value] *)
Definition embed_field_key (idx field_idx : nat) (field_type : string) : string :=
  "embed:" +:+ str_of_nat idx +:+ ":fields:" +:+ str_of_nat field_idx +:+ ":" +:+ field_type.

(** ** The bulk helpers [translate_content] and [do_translate] *)

(** [str.format] with keyword arguments is a builtin. *)
Class Builtins : Type := {
  str_format : string -> gmap string pyval -> result string
}.

(** A [discord.Interaction] as the helpers use it: its attribute [command]
    and its method [translate(string, data=...)]. *)
Record Interaction : Type := {
  interaction_command : context_data;
  interaction_translate : locale_str -> context_data -> M pyval
}.

(** [locale_str(value, key=key)] *)
Definition keyed (value key : string) : locale_str :=
  {| message := value; extras := {[ "key" := PStr key ]} |}.

(** [v.format] with the keywords [string_formats]: a method of strings
    only. *)
Definition py_format `{Builtins} (v : pyval) (string_formats : gmap string pyval)
  : result pyval :=
  match v with
  | PStr s => s' ← str_format s string_formats; Ret (PStr s')
  | _ => Raise AttributeError
  end.

(** [do_translate], the function that [translate_embeds] applies to each
    text of an embed ([value] is a [str] or [None]). *)
Definition do_translate `{Builtins} (interaction : Interaction)
    (string_formats : gmap string pyval) (value : option string) (key : string) : M pyval :=
  match value with
  | None | Some EmptyString => mret PNone
  | Some value =>
      translated ← interaction_translate interaction (keyed value key)
                     (interaction_command interaction);
      lift (py_format (py_or translated (PStr value)) string_formats)
  end.

(** [JDCommandTranslator.translate_content] *)
Definition translate_content `{Builtins} (interaction : Interaction) (content : string)
    (string_formats : gmap string pyval) : M pyval :=
  translated ← interaction_translate interaction (keyed content "content")
                 (interaction_command interaction);
  if truthy translated && negb (bool_decide (string_formats = ∅))
  then lift (py_format translated string_formats)
  else mret (py_or translated (PStr content)).

(** The interaction hands its strings to the translator, with its own
    locale and the location [other]. *)
Definition forwards_to `{External} (fs : filesystem) (locale : Locale)
    (interaction : Interaction) : Prop :=
  forall lstr d,
    interaction_translate interaction lstr d
    = translate fs lstr locale {| location := TranslationContextLocation.other; data := d |}.

(** Modelled from the spec: an interaction whose [translate] uses the
    translator as its resolver, for the locale of the user, at location
    [other] (the library's [Interaction] is not part of the repository). *)
Definition interaction_of `{External} (fs : filesystem) (locale : Locale)
    (command : context_data) : Interaction :=
  {| interaction_command := command;
     interaction_translate := fun lstr d =>
       translate fs lstr locale
         {| location := TranslationContextLocation.other; data := d |} |}.

(** A stand-in for [str.format] in the example world: it replaces nothing
    and marks its result. *)
Definition example_builtins : Builtins :=
  {| str_format := fun s _ => Ret (s +:+ " (formatted)") |}.

(** ** A second example world *)

(** A directory with two files named after [en-US], a file for [de] that
    is JSON but no object, a file for [fr] that is no JSON, and an entry
    that is no [.json] file. *)
Definition old_doc : pyval := PDict [("ping", PDict [("name", PStr "Old ping")])].

Definition stray_external : External := {|
  Locale_values := ["de"; "en-US"; "fr"];
  json_loads := fun text =>
    if String.eqb text "<en-US>" then Some en_US_doc
    else if String.eqb text "<en-US.old>" then Some old_doc
    else if String.eqb text "<de>" then Some (PList [PStr "ping"])
    else None
|}.

Definition stray_read (path : string) : option string :=
  if String.eqb path "./locales/en-US.json" then Some "<en-US>"
  else if String.eqb path "./locales/en-US.old.json" then Some "<en-US.old>"
  else if String.eqb path "./locales/de.json" then Some "<de>"
  else if String.eqb path "./locales/fr.json" then Some "<garbage>"
  else None.

Definition stray_fs : filesystem := {|
  os_listdir := fun path =>
    if String.eqb path "./locales"
    then Some ["en-US.json"; "notes.json.bak"; "en-US.old.json"; "de.json"] else None;
  read_file := stray_read
|}.

Definition stray_json_fs : filesystem := {|
  os_listdir := fun path =>
    if String.eqb path "./locales"
    then Some ["en-US.json"; "en-US.old.json"; "de.json"] else None;
  read_file := stray_read
|}.

Definition corrupt_fs : filesystem := {|
  os_listdir := fun path =>
    if String.eqb path "./locales" then Some ["fr.json"] else None;
  read_file := stray_read
|}.

(** The translators after [load()] on these directories. *)
Definition loaded_stray : translator := snd (load (H := stray_external) stray_fs init).
Definition loaded_corrupt : translator := snd (load (H := stray_external) corrupt_fs init).

Definition no_command (loc : TranslationContextLocation.t) : TranslationContext :=
  {| location := loc; data := DataOther PNone |}.

(** * Helpers of [utils/extra.py] *)

(** ** [groupby] *)

(** [l[:n]] and [l[n:]] for an integer [n]: a negative [n] counts from the
    end of the list, and a bound before the start of the list is taken
    for its start. *)
Definition slice_to {A : Type} (l : list A) (n : Z) : list A :=
  if 0 <=? n then take (Z.to_nat n) l
  else take (Z.to_nat (Z.of_nat (length l) + n)) l.

Definition slice_from {A : Type} (l : list A) (n : Z) : list A :=
  if 0 <=? n then drop (Z.to_nat n) l
  else drop (Z.to_nat (Z.of_nat (length l) + n)) l.

(** The loop [while True] of [groupby]; each turn takes one unit of fuel,
    and [None] says that the fuel ran out before the [break]. *)
Fixpoint groupby_loop {A : Type} (fuel : nat) (resp : list (list A)) (iterable : list A)
    (number : Z) : option (list (list A)) :=
  match fuel with
  | O => None
  | S fuel' =>
      let resp := (resp ++ [slice_to iterable number])%list in
      let iterable := slice_from iterable number in
      match iterable with
      | [] => Some resp
      | _ :: _ => groupby_loop fuel' resp iterable number
      end
  end.

(** [groupby(iterable, number)] *)
Definition groupby {A : Type} (fuel : nat) (iterable : list A) (number : Z)
  : option (list (list A)) :=
  groupby_loop fuel [] iterable number.

(** ** [bit_generator] *)

(** [s[2:]] *)
Definition from_2 (s : string) : string :=
  match s with
  | String _ (String _ s') => s'
  | _ => EmptyString
  end.

(** [hex(r)[2:]], where [r] is what [random.randint(0, 255)] drew. *)
Definition bit_generator (r : Z) : string := from_2 (HexString.of_Z r).

(** ** [get_required_npm] *)

(** [s.strip(c)] for one character [c] *)
Fixpoint lstrip_char (c : ascii) (s : list ascii) : list ascii :=
  match s with
  | x :: s' => if Ascii.eqb x c then lstrip_char c s' else s
  | [] => []
  end.

Definition strip_char (c : ascii) (s : string) : string :=
  string_of_list_ascii (rev (lstrip_char c (rev (lstrip_char c (list_ascii_of_string s))))).

(** [d.items()] of a parsed dict: each key once, with its first binding,
    in the order of the first bindings. *)
Fixpoint items_from (seen : list string) (d : list (string * pyval))
  : list (string * pyval) :=
  match d with
  | [] => []
  | (k, v) :: d' =>
      if bool_decide (k ∈ seen) then items_from seen d'
      else (k, v) :: items_from (k :: seen) d'
  end.

Definition py_items (d : pyval) : result (list (string * pyval)) :=
  match d with
  | PDict kvs => Ret (items_from [] kvs)
  | _ => Raise AttributeError
  end.

(** [d[k] = v]: the value of the key is replaced, or the binding is added
    at the end. *)
Fixpoint dict_set (k : string) (v : pyval) (d : list (string * pyval))
  : list (string * pyval) :=
  match d with
  | [] => [(k, v)]
  | (k', v') :: d' =>
      if String.eqb k k' then (k, v) :: d' else (k', v') :: dict_set k v d'
  end.

(** The loop [for lib, ver in _dependencies.items()] *)
Fixpoint strip_dependencies (its : list (string * pyval))
    (dependencies : list (string * pyval)) : result (list (string * pyval)) :=
  match its with
  | [] => Ret dependencies
  | (lib, ver) :: rest =>
      match ver with
      | PStr ver => strip_dependencies rest (dict_set lib (PStr (strip_char "^" ver)) dependencies)
      | _ => Raise AttributeError
      end
  end.

(** [get_required_npm(data)] *)
Definition get_required_npm (data : pyval) : result pyval :=
  dist_tags ← py_getitem data (PStr "dist-tags");
  latest ← py_getitem dist_tags (PStr "latest");
  dist_tags ← py_getitem data (PStr "dist-tags");
  next ← get dist_tags "next";
  versions ← py_getitem data (PStr "versions");
  version_data ← py_getitem versions latest;
  name ← py_getitem version_data (PStr "name");
  description ← py_getitem version_data (PStr "description");
  maintainers ← get data "maintainers";
  authors ← get_or data "author" maintainers;
  license ← get version_data "license";
  _dependencies ← get_or version_data "dependencies" (PDict []);
  its ← py_items _dependencies;
  dependencies ← strip_dependencies its [];
  Ret (PDict [("latest_version", latest);
              ("next_version", next);
              ("name", name);
              ("description", description);
              ("authors", authors);
              ("license", license);
              ("dependencies", PDict dependencies)]).

(** The values that have the method [strip]. *)
Definition is_str (v : pyval) : Prop := exists s, v = PStr s.

(** The registry document of a package, as an example. *)
Definition left_pad_version : list (string * pyval) :=
  [("name", PStr "left-pad");
   ("description", PStr "String left pad");
   ("license", PStr "WTFPL");
   ("dependencies", PDict [("a", PStr "^1.2.3"); ("b", PStr "^^2.0^")])].

Definition left_pad_tags : list (string * pyval) := [("latest", PStr "1.3.0")].

Definition left_pad_versions (version : list (string * pyval)) : list (string * pyval) :=
  [("1.3.0", PDict version)].

Definition left_pad_data (version : list (string * pyval)) : list (string * pyval) :=
  [("dist-tags", PDict left_pad_tags);
   ("versions", PDict (left_pad_versions version));
   ("maintainers", PList [PDict [("name", PStr "az")]])].

Definition left_pad : pyval := PDict (left_pad_data left_pad_version).

(** A version without a description, one whose dependencies are null,
    and one with a dependency whose version is a number. *)
Definition undescribed_version : list (string * pyval) :=
  [("name", PStr "left-pad"); ("license", PStr "WTFPL")].

Definition null_dependencies_version : list (string * pyval) :=
  [("name", PStr "left-pad");
   ("description", PStr "String left pad");
   ("dependencies", PNone)].

Definition numbered_version : list (string * pyval) :=
  [("name", PStr "left-pad");
   ("description", PStr "String left pad");
   ("dependencies", PDict [("a", PStr "^1.2.3"); ("b", PInt 2)])].

(** * Properties *)

(** ** Strings and values *)

Lemma prefix_app (s post : string) : String.prefix s (s +:+ post) = true.
Proof.
  induction s as [|a s IH]; [by destruct post|].
  change (String a s +:+ post) with (String a (s +:+ post)). cbn [String.prefix].
  by destruct (ascii_dec a a).
Qed.

Lemma contains_prefix (needle s : string) :
  String.prefix needle s = true -> contains needle s = true.
Proof. intros E. destruct s; cbn [contains]; by rewrite E. Qed.

(** A text holds each of its parts. *)
Lemma contains_app (needle pre post : string) :
  contains needle (pre +:+ needle +:+ post) = true.
Proof.
  induction pre as [|c pre IH].
  - change ("" +:+ needle +:+ post) with (needle +:+ post).
    apply contains_prefix, prefix_app.
  - change (String c pre +:+ needle +:+ post) with (String c (pre +:+ needle +:+ post)).
    cbn [contains]. rewrite IH. apply orb_true_r.
Qed.

Lemma split_nonempty (sep : ascii) (s : string) : exists w ws, split sep s = w :: ws.
Proof.
  induction s as [|c s [w [ws IH]]]; simpl.
  - by eexists _, _.
  - destruct (Ascii.eqb c sep); [by eexists _, _|].
    rewrite IH. by eexists _, _.
Qed.

(** The segments of a key that begins with two given segments. *)
Lemma split_embed_0 (rest : string) :
  split ":" ("embed:0:" +:+ rest) = "embed" :: "0" :: split ":" rest.
Proof.
  destruct (split_nonempty ":" rest) as [w [ws E]].
  cbv [String.app String.append]. fold String.append. simpl. rewrite E. reflexivity.
Qed.

Lemma startswith_embed_0 (rest : string) : startswith ("embed:0:" +:+ rest) "embed" = true.
Proof. reflexivity. Qed.

Lemma truthy_PStr_nonempty (s : string) : s <> EmptyString -> truthy (PStr s) = true.
Proof. by destruct s. Qed.

Lemma seq_index_in_range {A : Type} (l : list A) (i : nat) (x : A) :
  l !! i = Some x -> seq_index l (Z.of_nat i) = Ret x.
Proof.
  intros Hx. pose proof (lookup_lt_Some _ _ _ Hx) as Hlt.
  unfold seq_index, norm_index.
  replace (0 <=? Z.of_nat i) with true by (symmetry; apply Z.leb_le; lia).
  replace (Z.of_nat i <? Z.of_nat (length l)) with true by (symmetry; apply Z.ltb_lt; lia).
  simpl. rewrite Nat2Z.id, Hx. reflexivity.
Qed.

Lemma seq_index_beyond {A : Type} (l : list A) (i : Z) :
  Z.of_nat (length l) <= i -> seq_index l i = Raise IndexError.
Proof.
  intros Hge. unfold seq_index, norm_index.
  replace (i <? Z.of_nat (length l)) with false by (symmetry; apply Z.ltb_ge; lia).
  replace (i <? 0) with false by (symmetry; apply Z.ltb_ge; lia).
  rewrite andb_false_r. reflexivity.
Qed.

Lemma seq_index_empty {A : Type} (i : Z) : seq_index (@nil A) i = Raise IndexError.
Proof.
  unfold seq_index, norm_index.
  change (Z.of_nat (length (@nil A))) with 0. rewrite Z.add_0_l.
  destruct (Z.leb_spec 0 i), (Z.ltb_spec i 0); simpl; try reflexivity; lia.
Qed.

(** [int()] on some literals. *)
Example py_int_literals :
  py_int "0" = Some 0 /\ py_int " -12_3 " = Some (-123) /\ py_int "+7" = Some 7 /\
  py_int "x" = None /\ py_int "1__2" = None /\ py_int "_1" = None /\
  py_int EmptyString = None /\ py_int "- 1" = None.
Proof. repeat split. Qed.

Lemma lstrip_keeps (c : ascii) (s : list ascii) :
  In c s -> is_space c = false -> In c (lstrip s).
Proof.
  intros Hin Hc. induction s as [|x s IH]; [done|]. cbn [lstrip].
  destruct (is_space x) eqn:Ex; [|done].
  destruct Hin as [->|Hin]; [congruence|by apply IH].
Qed.

Lemma strip_keeps (c : ascii) (s : list ascii) :
  In c s -> is_space c = false -> In c (strip s).
Proof.
  intros Hin Hc. unfold strip.
  apply -> in_rev. apply lstrip_keeps; [|done].
  apply -> in_rev. by apply lstrip_keeps.
Qed.

Lemma parse_digits_refuses (c : ascii) (s : list ascii) (acc : Z) (n : nat) (b : bool) :
  In c s -> digit_value c = None -> Ascii.eqb c "_" = false ->
  parse_digits acc n b s = None.
Proof.
  intros Hin Hd Hu. revert acc n b. induction s as [|x s IH]; intros acc n b; [done|].
  cbn [parse_digits]. destruct Hin as [<-|Hin].
  - by rewrite Hd, Hu.
  - destruct (digit_value x); [by apply IH|].
    destruct (_ && _); [by apply IH|done].
Qed.

(** [int()] refuses a text that holds a character other than a digit, a
    sign, an underscore and a blank. *)
Lemma py_int_refuses (c : ascii) (s : string) :
  In c (list_ascii_of_string s) ->
  is_space c = false -> digit_value c = None ->
  Ascii.eqb c "_" = false -> Ascii.eqb c "+" = false -> Ascii.eqb c "-" = false ->
  py_int s = None.
Proof.
  intros Hin Hs Hd Hu Hplus Hminus. unfold py_int.
  pose proof (strip_keeps c _ Hin Hs) as Hin'.
  destruct (strip (list_ascii_of_string s)) as [|x r]; [done|].
  assert (forall l, In c l -> parse_unsigned l = None) as Hno.
  { intros l Hl. unfold parse_unsigned. by rewrite (parse_digits_refuses c l 0 0 false). }
  destruct (Ascii.eqb x "-") eqn:Ex1; [|destruct (Ascii.eqb x "+") eqn:Ex2].
  - destruct Hin' as [->|Hr]; [congruence|]. by rewrite (Hno r Hr).
  - destruct Hin' as [->|Hr]; [congruence|]. by apply Hno.
  - by apply Hno.
Qed.

Lemma bind_Ret {A B : Type} (a : A) (f : A -> result B) : Ret a ≫= f = f a.
Proof. reflexivity. Qed.

Lemma bind_Raise {A B : Type} (e : exn) (f : A -> result B) : Raise e ≫= f = Raise e.
Proof. reflexivity. Qed.

Lemma get_or_present (d : list (string * pyval)) (k : string) (v default : pyval) :
  assoc k d = Some v -> get_or (PDict d) k default = Ret v.
Proof. intros E. unfold get_or, py_get. rewrite E. reflexivity. Qed.

Lemma get_or_absent (d : list (string * pyval)) (k : string) (default : pyval) :
  assoc k d = None -> get_or (PDict d) k default = Ret default.
Proof. intros E. unfold get_or, py_get. rewrite E. reflexivity. Qed.

Lemma get_dict (d : list (string * pyval)) (k : string) :
  get (PDict d) k = Ret (default PNone (assoc k d)).
Proof. unfold get, py_get. by destruct (assoc k d). Qed.

Lemma py_get_dict (d : list (string * pyval)) (k : string) (default : pyval) :
  py_get (PDict d) (PStr k) default = Ret (from_option id default (assoc k d)).
Proof. reflexivity. Qed.

Lemma getitem_list (l : list pyval) (i : Z) : py_getitem (PList l) (PInt i) = seq_index l i.
Proof. reflexivity. Qed.

Lemma getitem_list_at (l : list pyval) (i : Z) (x : pyval) :
  0 <= i -> l !! Z.to_nat i = Some x -> py_getitem (PList l) (PInt i) = Ret x.
Proof.
  intros Hi E. rewrite getitem_list, <- (Z2Nat.id i) by done.
  by apply seq_index_in_range.
Qed.

Lemma truthy_PDict_binding (d : list (string * pyval)) (k : string) (v : pyval) :
  assoc k d = Some v -> truthy (PDict d) = true.
Proof. by destruct d. Qed.

(** Rewriting a chain of binds along the hypotheses at hand. *)
Ltac step :=
  first [ rewrite bind_Ret | rewrite bind_Raise
        | erewrite get_or_present by eassumption
        | erewrite get_or_absent by eassumption
        | rewrite get_dict ].

(** ** Reaching the dispatch *)

Section Dispatch.
Context `{External}.
Variables (fs : filesystem) (lstr : locale_str) (locale : Locale).
Variables (context : TranslationContext) (t t' : translator) (command : pyval).

Lemma translate_reaches_dispatch :
  finds_document fs lstr locale context t command t' ->
  translate fs lstr locale context t = (dispatch command lstr (location context), t').
Proof.
  intros ([file Hfile] & Hname & Hkey & Hget & Hdoc).
  unfold translate, mbind, M_bind, gets. rewrite Hfile, Hname. simpl.
  destruct (bool_decide (location context = TranslationContextLocation.other)) eqn:Eo.
  - apply bool_decide_eq_true in Eo. rewrite (Hkey Eo). simpl.
    rewrite Hget, Hdoc. reflexivity.
  - simpl. rewrite Hget, Hdoc. reflexivity.
Qed.

Lemma dispatch_other :
  location context = TranslationContextLocation.other ->
  dispatch command lstr (location context) = translate_other command lstr.
Proof. intros ->. reflexivity. Qed.

Lemma translate_other_key (key : string) :
  extras lstr !! "key" = Some (PStr key) -> key <> EmptyString ->
  translate_other command lstr =
    if startswith key "embed" then translate_embed command key
    else if String.eqb key "content" then get command "content"
    else Ret PNone.
Proof.
  intros Hk Hne. unfold translate_other, extras_get, py_or. rewrite Hk.
  destruct key; [congruence|]. reflexivity.
Qed.
End Dispatch.

(** ** The embed keys of location [other] *)

Section EmbedKeys.
Context `{External}.
Variables (fs : filesystem) (lstr : locale_str) (locale : Locale).
Variables (context : TranslationContext) (t t' : translator).

(** What [translate] does with a key, once the document is found. *)
Lemma translate_other_embed (command : pyval) (key : string) :
  finds_document fs lstr locale context t command t' ->
  location context = TranslationContextLocation.other ->
  extras lstr !! "key" = Some (PStr key) ->
  startswith key "embed" = true ->
  translate fs lstr locale context t = (translate_embed command key, t').
Proof.
  intros Hdoc Hloc Hkey Hpre.
  rewrite (translate_reaches_dispatch _ _ _ _ _ _ _ Hdoc), dispatch_other by done.
  rewrite (translate_other_key _ _ key Hkey), Hpre; [done|].
  intros ->. discriminate.
Qed.

(** C3. With location [other] and the key [embed:0:fields:2:value], on a
    document that has an embed at index 0 with a field at index 2, the
    key is cut into the segments [embed], [0], [fields], [2], [value],
    the two indices are read as 0 and 2, and [translate] returns
    [document.embeds[0].fields[2].value] ([None] when the field has no
    such entry). *)
Theorem translate_embed_field_value (d e f : list (string * pyval)) (embeds fields : list pyval) :
  finds_document fs lstr locale context t (PDict d) t' ->
  location context = TranslationContextLocation.other ->
  extras lstr !! "key" = Some (PStr "embed:0:fields:2:value") ->
  assoc "embeds" d = Some (PList embeds) ->
  embeds !! 0%nat = Some (PDict e) ->
  assoc "fields" e = Some (PList fields) ->
  fields !! 2%nat = Some (PDict f) ->
  split ":" "embed:0:fields:2:value" = ["embed"; "0"; "fields"; "2"; "value"] /\
  int_of_str "0" = Ret 0 /\
  lower "fields" = "fields" /\
  int_of_str "2" = Ret 2 /\
  translate fs lstr locale context t = (Ret (default PNone (assoc "value" f)), t').
Proof.
  intros Hdoc Hloc Hkey Hembeds He Hfields Hf.
  repeat split.
  rewrite (translate_other_embed _ _ Hdoc Hloc Hkey) by reflexivity.
  f_equal. unfold translate_embed.
  change (split ":" "embed:0:fields:2:value") with ["embed"; "0"; "fields"; "2"; "value"].
  cbv beta iota.
  change (int_of_str "0") with (Ret 0). change (lower "fields") with "fields".
  repeat step. rewrite (getitem_list_at _ 0 _ ltac:(lia) He), bind_Ret.
  rewrite (truthy_PDict_binding _ _ _ Hfields).
  cbn [negb String.eqb Ascii.eqb Bool.eqb]. unfold translate_embed_fields.
  change (int_of_str "2") with (Ret 2).
  repeat step. rewrite (getitem_list_at _ 2 _ ltac:(lia) Hf), bind_Ret.
  destruct f as [|kv f']; reflexivity.
Qed.

(** C2.  The code departs from the claim.  With location [other] and a
    key [embed:0:<field>]: when the document has no [embeds] entry, the
    default list of one empty embed and the guard [if not embed] make
    [translate] return [None] whatever the field; but when its [embeds]
    list is present and empty, the default is not taken, index 0 is out
    of range and [translate] raises [IndexError] before the guard, where
    the claim (and the guard of the choices, on an empty list) has
    [None]. *)
Theorem translate_embed_absent_or_empty (d : list (string * pyval)) (rest : string) :
  finds_document fs lstr locale context t (PDict d) t' ->
  location context = TranslationContextLocation.other ->
  extras lstr !! "key" = Some (PStr ("embed:0:" +:+ rest)) ->
  (assoc "embeds" d = None ->
   translate fs lstr locale context t = (Ret PNone, t')) /\
  (assoc "embeds" d = Some (PList []) ->
   translate fs lstr locale context t = (Raise IndexError, t')).
Proof.
  intros Hdoc Hloc Hkey.
  rewrite (translate_other_embed _ _ Hdoc Hloc Hkey) by apply startswith_embed_0.
  unfold translate_embed. rewrite split_embed_0.
  destruct (split_nonempty ":" rest) as [field [fields_extra ->]].
  change (int_of_str "0") with (Ret 0).
  split; intros Hembeds; f_equal; repeat step.
  - reflexivity.
  - rewrite getitem_list, seq_index_empty. reflexivity.
Qed.

(** C4, as the code has it.  With location [other] on a found document:
    the key [embed:0] raises the [ValueError] for a malformed embed key,
    whose message holds the key and the example [embed:0:title]; and,
    provided [document.embeds[0]] exists and is not empty, the key
    [embed:0:fields:2] raises the [ValueError] for a malformed fields
    key, whose message holds the key and an example, and the key
    [embed:0:bogus] raises the [ValueError] for an unknown field. *)
Theorem malformed_embed_keys (command : pyval) (key : string) :
  finds_document fs lstr locale context t command t' ->
  location context = TranslationContextLocation.other ->
  extras lstr !! "key" = Some (PStr key) ->
  (key = "embed:0" ->
   translate fs lstr locale context t = (Raise (ValueError (invalid_embed_key_msg key)), t') /\
   contains key (invalid_embed_key_msg key) = true /\
   contains "Example: `embed:0:title`" (invalid_embed_key_msg key) = true) /\
  (forall embeds embed,
     get_or command "embeds" (PList [PDict []]) = Ret (PList embeds) ->
     embeds !! 0%nat = Some embed ->
     truthy embed = true ->
     (key = "embed:0:fields:2" ->
      translate fs lstr locale context t =
        (Raise (ValueError (invalid_embed_fields_key_msg key)), t') /\
      contains key (invalid_embed_fields_key_msg key) = true /\
      contains "Example: `embed:0:fields:0:name`" (invalid_embed_fields_key_msg key) = true) /\
     (key = "embed:0:bogus" ->
      translate fs lstr locale context t = (Raise (ValueError (invalid_field_msg "bogus")), t'))).
Proof.
  intros Hdoc Hloc Hkey. split.
  - intros ->. split; [|by vm_compute].
    by rewrite (translate_other_embed _ _ Hdoc Hloc Hkey).
  - intros embeds embed Hembeds He Hembed.
    split; intros ->; (split || idtac); try (by vm_compute);
      rewrite (translate_other_embed _ _ Hdoc Hloc Hkey) by reflexivity;
      f_equal; unfold translate_embed.
    + change (split ":" "embed:0:fields:2") with ["embed"; "0"; "fields"; "2"].
      cbv beta iota. change (int_of_str "0") with (Ret 0).
      rewrite bind_Ret, Hembeds, bind_Ret.
      rewrite (getitem_list_at _ 0 _ ltac:(lia) He), bind_Ret, Hembed.
      reflexivity.
    + change (split ":" "embed:0:bogus") with ["embed"; "0"; "bogus"].
      cbv beta iota. change (int_of_str "0") with (Ret 0).
      rewrite bind_Ret, Hembeds, bind_Ret.
      rewrite (getitem_list_at _ 0 _ ltac:(lia) He), bind_Ret, Hembed.
      reflexivity.
Qed.

(** C10, as the code has it.  With location [other] on a found document
    and a key that starts with [embed].  When the key has at least three
    segments and [int()] refuses the index segment (an ASCII text that is
    no integer), [translate] raises the [ValueError] of that conversion;
    and in the fields form [embed:<index>:fields:<field_index>:<type>],
    when the embed at the index exists and is not empty and [int()]
    refuses the field index, [translate] raises the [ValueError] of that
    conversion: neither is the error for a malformed embed key.  When the
    key has fewer than three segments, [translate] raises the error for a
    malformed embed key, whose message holds the key, whatever its index
    segment is. *)
Theorem non_integer_index_segment (command : pyval) (key : string) :
  finds_document fs lstr locale context t command t' ->
  location context = TranslationContextLocation.other ->
  extras lstr !! "key" = Some (PStr key) ->
  startswith key "embed" = true ->
  (forall seg idx field fields_extra,
     split ":" key = seg :: idx :: field :: fields_extra ->
     (is_ascii idx = true -> py_int idx = None ->
      translate fs lstr locale context t = (Raise (InvalidLiteral idx), t')) /\
     (forall i embeds embed field_idx field_type,
        py_int idx = Some i ->
        get_or command "embeds" (PList [PDict []]) = Ret embeds ->
        py_getitem embeds (PInt i) = Ret embed ->
        truthy embed = true ->
        lower field = "fields" ->
        fields_extra = [field_idx; field_type] ->
        is_ascii field_idx = true -> py_int field_idx = None ->
        translate fs lstr locale context t = (Raise (InvalidLiteral field_idx), t'))) /\
  ((length (split ":" key) < 3)%nat ->
   translate fs lstr locale context t = (Raise (ValueError (invalid_embed_key_msg key)), t') /\
   contains key (invalid_embed_key_msg key) = true).
Proof.
  intros Hdoc Hloc Hkey Hpre.
  rewrite (translate_other_embed _ _ Hdoc Hloc Hkey Hpre).
  unfold translate_embed. split.
  - intros seg idx field fields_extra ->. unfold int_of_str. split.
    + intros _ ->. reflexivity.
    + intros i embeds embed field_idx field_type -> Hembeds He Hembed -> -> _ Hidx.
      rewrite bind_Ret, Hembeds, bind_Ret, He, bind_Ret, Hembed.
      cbn [negb String.eqb Ascii.eqb Bool.eqb]. unfold translate_embed_fields, int_of_str.
      rewrite Hidx. reflexivity.
  - intros Hshort. split; [|apply contains_app].
    destruct (split ":" key) as [|seg [|idx [|field fields_extra]]]; try reflexivity.
    cbn in Hshort. lia.
Qed.
End EmbedKeys.

(** ** Names, parameters and choices *)

Section Lookups.
Context `{External}.
Variables (fs : filesystem) (lstr : locale_str) (locale : Locale).
Variables (context : TranslationContext) (t t' : translator).

(** C6. When the extras hold an explicit [command] that is available (a
    true value, as the [or] of the code tests it) and the context data
    gives a name too, the name that [translate] resolves and passes to
    [get_command] is the explicit one. *)
Theorem explicit_command_wins (file : string) (explicit : pyval) (derived : string) :
  LOCALE_TO_FILE t !! locale = Some file ->
  extras lstr !! "command" = Some explicit ->
  truthy explicit = true ->
  data_command_name (data context) = PStr derived ->
  (location context = TranslationContextLocation.other ->
   truthy (extras_get lstr "key") = true) ->
  resolve_command_name lstr context = explicit /\
  translate fs lstr locale context t =
    (command ← get_command fs locale explicit;
     if negb (truthy command) then mret PNone
     else lift (dispatch command lstr (location context))) t.
Proof.
  intros Hfile Hcmd Htrue Hdata Hkey.
  assert (resolve_command_name lstr context = explicit) as Hname.
  { unfold resolve_command_name, py_or, extras_get. rewrite Hcmd. simpl. by rewrite Htrue. }
  split; [done|].
  unfold translate at 1. unfold mbind at 1, M_bind at 1, gets at 1.
  rewrite Hfile, Hname, Htrue. cbn [negb].
  destruct (bool_decide (location context = TranslationContextLocation.other)) eqn:Eo;
    [apply bool_decide_eq_true in Eo; rewrite (Hkey Eo)|]; reflexivity.
Qed.

(** The first test of the chain takes [parameter_name]: the name of the
    command is returned, and the branch on the options is not reached. *)
Lemma translate_parameter_name (command : pyval) :
  finds_document fs lstr locale context t command t' ->
  location context = TranslationContextLocation.parameter_name ->
  translate fs lstr locale context t = (get command "name", t').
Proof.
  intros Hdoc Hloc. rewrite (translate_reaches_dispatch _ _ _ _ _ _ _ Hdoc), Hloc.
  reflexivity.
Qed.

(** [parameter_description] is resolved on the options: [None] when the
    option has no entry, else the description of the entry. *)
Lemma translate_parameter_description (d opts : list (string * pyval)) :
  finds_document fs lstr locale context t (PDict d) t' ->
  location context = TranslationContextLocation.parameter_description ->
  assoc "options" d = Some (PDict opts) ->
  (assoc (message lstr) opts = None ->
   translate fs lstr locale context t = (Ret PNone, t')) /\
  (forall o, assoc (message lstr) opts = Some (PDict o) ->
   translate fs lstr locale context t = (Ret (default PNone (assoc "description" o)), t')).
Proof.
  intros Hdoc Hloc Hopts.
  rewrite (translate_reaches_dispatch _ _ _ _ _ _ _ Hdoc), Hloc.
  change (dispatch (PDict d) lstr TranslationContextLocation.parameter_description)
    with (translate_parameter (PDict d) lstr TranslationContextLocation.parameter_description).
  unfold translate_parameter. repeat step. unfold py_get.
  split.
  - intros ->. reflexivity.
  - intros o ->. cbn [from_option id]. rewrite bind_Ret.
    destruct o; [reflexivity|]. cbn [truthy negb].
    rewrite bool_decide_eq_false_2 by discriminate. by rewrite get_dict.
Qed.

(** C8, as the code has it.  With location [choice_name] on a found
    document: extras without an [index] raise the [ValueError] that asks
    for the index; extras with an [index] and without an [option], or
    with an empty one, raise the [ValueError] that asks for the option.
    Otherwise, for an option named [o]: when the document has no options
    or no entry for [o], when the entry has no [choices], and when its
    [choices] list is empty, [translate] returns [None]; when the list is
    not empty [translate] returns [choices[index]], which is the item at
    that position when the index is within the list and raises
    [IndexError] when the index is past its end. *)
Theorem translate_choice_name (d : list (string * pyval)) :
  finds_document fs lstr locale context t (PDict d) t' ->
  location context = TranslationContextLocation.choice_name ->
  (extras_get lstr "index" = PNone ->
   translate fs lstr locale context t = (Raise (ValueError missing_index_msg), t')) /\
  (extras_get lstr "index" <> PNone ->
   truthy (extras_get lstr "option") = false ->
   translate fs lstr locale context t = (Raise (ValueError missing_option_msg), t')) /\
  (forall o,
     extras_get lstr "index" <> PNone ->
     extras_get lstr "option" = PStr o -> o <> EmptyString ->
     (assoc "options" d = None -> translate fs lstr locale context t = (Ret PNone, t')) /\
     (forall opts,
        assoc "options" d = Some (PDict opts) ->
        (assoc o opts = None -> translate fs lstr locale context t = (Ret PNone, t')) /\
        (forall entry,
           assoc o opts = Some (PDict entry) ->
           (assoc "choices" entry = None ->
            translate fs lstr locale context t = (Ret PNone, t')) /\
           (assoc "choices" entry = Some (PList []) ->
            translate fs lstr locale context t = (Ret PNone, t')) /\
           (forall choices i,
              assoc "choices" entry = Some (PList choices) -> choices <> [] ->
              extras_get lstr "index" = PInt i ->
              translate fs lstr locale context t = (seq_index choices i, t') /\
              (forall c, 0 <= i -> choices !! Z.to_nat i = Some c ->
                         translate fs lstr locale context t = (Ret c, t')) /\
              (Z.of_nat (length choices) <= i ->
               translate fs lstr locale context t = (Raise IndexError, t')))))).
Proof.
  intros Hdoc Hloc.
  rewrite (translate_reaches_dispatch _ _ _ _ _ _ _ Hdoc), Hloc.
  change (dispatch (PDict d) lstr TranslationContextLocation.choice_name)
    with (translate_choice (PDict d) lstr).
  unfold translate_choice.
  split; [by intros ->|].
  split; [intros Hidx ->; by destruct (extras_get lstr "index")|].
  intros o Hidx -> Ho.
  rewrite (truthy_PStr_nonempty _ Ho). cbn [negb].
  assert (forall r : result pyval,
            match extras_get lstr "index" with PNone => Raise (ValueError missing_index_msg)
                                            | _ => r end = r) as Hskip
    by (intros r; by destruct (extras_get lstr "index")).
  rewrite Hskip. clear Hskip.
  split; [intros Hopts; by repeat step|].
  intros opts Hopts. repeat step. rewrite py_get_dict.
  split; [intros ->; by repeat step|].
  intros entry ->. cbn [from_option id]. repeat step.
  split; [intros ->; reflexivity|].
  split; [intros ->; reflexivity|].
  intros choices i -> Hne Hi. cbn [default from_option]. unfold id.
  assert (truthy (PList choices) = true) as -> by (by destruct choices).
  cbn [negb]. rewrite Hi, getitem_list.
  split; [done|]. split.
  - intros c Hpos Hc. rewrite <- (Z2Nat.id i) by done. by rewrite (seq_index_in_range _ _ _ Hc).
  - intros Hge. by rewrite seq_index_beyond.
Qed.
End Lookups.

(** ** The cache of locales *)

Lemma path_of_inj (f g : string) : path_of f = path_of g -> f = g.
Proof. cbv [path_of LOCALS_PATH String.app String.append]. congruence. Qed.

Lemma count_cons_ne (p q : string) (l : list string) : p <> q -> count p (q :: l) = count p l.
Proof. intros Hne. simpl. by apply String.eqb_neq in Hne as ->. Qed.

Lemma count_cons_eq (p : string) (l : list string) : count p (p :: l) = S (count p l).
Proof. simpl. by rewrite String.eqb_refl. Qed.

Section Cache.
Context `{External}.

Lemma get_locale_cached (fs : filesystem) (L : Locale) (data : pyobj) (t : translator) :
  cached_locales t !! L = Some data -> get_locale fs L t = (Ret data, t).
Proof. intros E. unfold get_locale, mbind, M_bind, gets. by rewrite E. Qed.

Lemma get_locale_unregistered (fs : filesystem) (L : Locale) (t : translator) :
  cached_locales t !! L = None -> LOCALE_TO_FILE t !! L = None ->
  get_locale fs L t = (Raise (KeyError (PStr L)), t).
Proof. intros E1 E2. unfold get_locale, mbind, M_bind, gets. by rewrite E1, E2. Qed.

(** The first reference to a locale reads and parses its file, and
    caches the new object. *)
Lemma get_locale_first (fs : filesystem) (L : Locale) (file text : string) (v : pyval)
    (t : translator) :
  cached_locales t !! L = None ->
  LOCALE_TO_FILE t !! L = Some file ->
  read_file fs (path_of file) = Some text ->
  json_loads text = Some v ->
  get_locale fs L t =
    (Ret {| obj_id := next_id t; obj_val := v |},
     {| LOCALE_TO_FILE := LOCALE_TO_FILE t;
        cached_locales := <[L := {| obj_id := next_id t; obj_val := v |}]> (cached_locales t);
        opened := path_of file :: opened t;
        next_id := S (next_id t) |}).
Proof.
  intros Ec Ei Er Ej. unfold get_locale, mbind, M_bind, gets.
  rewrite Ec, Ei. unfold open_read. rewrite Er. unfold loads. by rewrite Ej.
Qed.

(** What a call of [get_locale] can change: nothing, or one more read of
    the file registered for a locale that was not cached, which is
    cached when the call returns. *)
Lemma get_locale_effect (fs : filesystem) (L : Locale) (t t1 : translator) (r : result pyobj) :
  get_locale fs L t = (r, t1) ->
  LOCALE_TO_FILE t1 = LOCALE_TO_FILE t /\
  (forall data, r = Ret data -> cached_locales t1 !! L = Some data) /\
  ((t1 = t /\ forall data, r = Ret data -> cached_locales t !! L = Some data) \/
   (cached_locales t !! L = None /\
    exists file, LOCALE_TO_FILE t !! L = Some file /\
      opened t1 = path_of file :: opened t /\
      (cached_locales t1 = cached_locales t \/
       exists data, r = Ret data /\ cached_locales t1 = <[L := data]> (cached_locales t)))).
Proof.
  unfold get_locale, mbind, M_bind, gets.
  destruct (cached_locales t !! L) as [data|] eqn:Ec.
  { intros [= <- <-]. split; [done|]. split; [by intros ? [= <-]|].
    left. split; [done|]. by intros ? [= <-]. }
  destruct (LOCALE_TO_FILE t !! L) as [file|] eqn:Ei.
  2:{ intros [= <- <-]. split; [done|]. split; [done|]. left. by split. }
  unfold open_read. destruct (read_file fs (path_of file)) as [text|].
  2:{ intros [= <- <-]. split; [done|]. split; [done|]. left. by split. }
  unfold loads. cbn [next_id]. destruct (json_loads text) as [v|].
  - cbn. intros [= <- <-]. cbn. split; [done|].
    split; [intros ? [= <-]; by rewrite lookup_insert_eq|].
    right. split; [done|]. exists file. split; [done|]. split; [done|].
    right. by eexists.
  - intros [= <- <-]. cbn. split; [done|]. split; [done|].
    right. split; [done|]. exists file. repeat split; auto.
Qed.
End Cache.

(** ** A cached locale stays as it is until [unload] *)

Section Settled.
Context `{External}.
Variables (L : Locale) (data : pyobj).

Local Abbreviation kept := (kept L data).

Lemma kept_refl (t : translator) : settled L data t -> kept t t.
Proof. by split. Qed.

Lemma get_locale_settled (fs : filesystem) (L' : Locale) (t : translator) :
  settled L data t -> kept t (snd (get_locale fs L' t)).
Proof.
  intros Hs. pose proof Hs as [Hwf Hc].
  destruct (get_locale fs L' t) as [r t1] eqn:E. cbn [snd].
  apply get_locale_effect in E as (Hidx & _ & [[-> _] | (Hnc & file & Hf & Hop & Hc1)]).
  { by apply kept_refl. }
  assert (L <> L') as Hne by congruence.
  split; [split|].
  - intros L0 f0. rewrite Hidx. apply Hwf.
  - destruct Hc1 as [-> | (d & _ & ->)]; [done|]. by rewrite lookup_insert_ne.
  - intros f Hf'. unfold reads_of. rewrite Hop. apply count_cons_ne.
    intros Hp. apply path_of_inj in Hp. subst f.
    rewrite (Hwf _ _ Hf) in Hf'. congruence.
Qed.

Lemma load_file_settled (fs : filesystem) (file : string) (t : translator) :
  settled L data t -> kept t (snd (load_file fs file t)).
Proof.
  intros Hs0. pose proof Hs0 as [Hwf Hc]. unfold load_file.
  destruct (endswith file ".json"); [|by apply kept_refl].
  destruct (discord_Locale (stem file)) as [locale|] eqn:El; [|by apply kept_refl].
  unfold mbind, M_bind, modify.
  assert (settled L data (set_LOCALE_TO_FILE locale file t)) as Hs.
  { split; [|done]. intros L0 f0. cbn.
    destruct (decide (locale = L0)) as [->|Hne].
    - rewrite lookup_insert_eq. by intros [= <-].
    - rewrite lookup_insert_ne by done. apply Hwf. }
  pose proof (get_locale_settled fs locale _ Hs) as Hk.
  destruct (get_locale fs locale (set_LOCALE_TO_FILE locale file t)) as [[d|e] t1]; exact Hk.
Qed.

Lemma load_files_settled (fs : filesystem) (files : list string) (t : translator) :
  settled L data t -> kept t (snd (load_files fs files t)).
Proof.
  revert t. induction files as [|file rest IH]; intros t Hs; [by apply kept_refl|].
  cbn [load_files]. unfold mbind, M_bind.
  destruct (load_file_settled fs file t Hs) as [Hs1 Hr1].
  destruct (load_file fs file t) as [[[]|e] t1]; cbn [snd] in *; [|by split].
  destruct (IH t1 Hs1) as [Hs2 Hr2]. split; [done|].
  intros f Hf. by rewrite Hr2, Hr1.
Qed.

Lemma get_command_settled (fs : filesystem) (L' : Locale) (name : pyval) (t : translator) :
  settled L data t -> kept t (snd (get_command fs L' name t)).
Proof.
  intros Hs. unfold get_command, mbind, M_bind, lift.
  pose proof (get_locale_settled fs L' t Hs) as Hk.
  by destruct (get_locale fs L' t) as [[d|e] t1].
Qed.

Lemma translate_settled (fs : filesystem) (lstr : locale_str) (L' : Locale)
    (context : TranslationContext) (t : translator) :
  settled L data t -> kept t (snd (translate fs lstr L' context t)).
Proof.
  intros Hs. unfold translate, mbind, M_bind, gets, raise.
  destruct (LOCALE_TO_FILE t !! L'); [|by apply kept_refl].
  destruct (negb (truthy (resolve_command_name lstr context))); [by apply kept_refl|].
  destruct (_ && _); [by apply kept_refl|].
  pose proof (get_command_settled fs L' (resolve_command_name lstr context) t Hs) as Hk.
  destruct (get_command fs L' (resolve_command_name lstr context) t) as [[command|e] t1];
    [|done].
  by destruct (negb (truthy command)).
Qed.

Lemma exec_settled (fs : filesystem) (c : call) (t : translator) :
  is_unload c = false -> settled L data t -> kept t (exec fs c t).
Proof.
  intros Hc Hs. destruct c; cbn [exec]; try discriminate.
  - unfold load. destruct (os_listdir fs LOCALS_PATH); [|by apply kept_refl].
    by apply load_files_settled.
  - by apply get_locale_settled.
  - by apply get_command_settled.
  - by apply translate_settled.
Qed.

Lemma exec_all_settled (cs : list (filesystem * call)) (t : translator) :
  Forall (fun c => is_unload c.2 = false) cs ->
  settled L data t -> kept t (exec_all cs t).
Proof.
  intros Hcs. revert t. induction Hcs as [|[fs c] cs Hc _ IH]; intros t Hs.
  { by apply kept_refl. }
  cbn [exec_all]. destruct (exec_settled fs c t Hc Hs) as [Hs1 Hr1].
  destruct (IH _ Hs1) as [Hs2 Hr2]. split; [done|].
  intros f Hf. by rewrite Hr2, Hr1.
Qed.
End Settled.

(** ** A load cycle *)

Section LoadCycle.
Context `{External}.
Variable t0 : translator.

Local Abbreviation loading := (loading t0).

Lemma loading_start : index_wf t0 -> loading t0.
Proof. intros Hwf. split; [done|]. intros f L _. split; [lia|done]. Qed.

Lemma load_file_loading (fs : filesystem) (file : string) (s s1 : translator) :
  loading s -> load_file fs file s = (Ret tt, s1) -> loading s1.
Proof.
  intros (Hwf & Hreads). unfold load_file.
  destruct (endswith file ".json"); [|by intros [= <-]].
  destruct (discord_Locale (stem file)) as [locale|] eqn:El; [|done].
  unfold mbind, M_bind, modify.
  destruct (get_locale fs locale (set_LOCALE_TO_FILE locale file s)) as [[d|e] s'] eqn:Eg;
    [|done].
  intros [= <-].
  apply get_locale_effect in Eg as (Hidx & Hret & Hcase). cbn in Hidx.
  specialize (Hret d eq_refl).
  assert (index_wf s') as Hwf'.
  { intros L0 f0. rewrite Hidx.
    destruct (decide (locale = L0)) as [->|Hne].
    - rewrite lookup_insert_eq. by intros [= <-].
    - rewrite lookup_insert_ne by done. apply Hwf. }
  destruct Hcase as [[-> Hc] | (Hnc & file' & Hf & Hop & Hc)].
  - (* the locale was cached: nothing is read *)
    by split.
  - (* the file of the locale is read and its content cached *)
    cbn in Hnc, Hf, Hop. rewrite lookup_insert_eq in Hf. injection Hf as <-.
    assert (cached_locales s' = <[locale := d]> (cached_locales s)) as Hc'.
    { cbn in Hc. destruct Hc as [Hc | (d' & [= <-] & Hc)]; [|done].
      rewrite Hc in Hret. congruence. }
    split; [done|].
    intros f L0 Hf0. destruct (Hreads f L0 Hf0) as [Hle Heq].
    unfold reads_of in *. rewrite Hop, Hc'.
    destruct (decide (f = file)) as [->|Hne].
    + assert (L0 = locale) as -> by (unfold locale_of_file in Hf0; congruence).
      rewrite count_cons_eq, lookup_insert_eq. rewrite (Heq Hnc). split; [lia|done].
    + rewrite count_cons_ne by (intros Hp; by apply path_of_inj in Hp).
      split; [done|]. intros Hn. apply Heq.
      destruct (decide (locale = L0)) as [<-|Hne']; [by rewrite lookup_insert_eq in Hn|].
      by rewrite lookup_insert_ne in Hn.
Qed.

Lemma load_files_loading (fs : filesystem) (files : list string) (s s1 : translator) :
  loading s -> load_files fs files s = (Ret tt, s1) -> loading s1.
Proof.
  revert s. induction files as [|file rest IH]; intros s Hs; [by intros [= <-]|].
  cbn [load_files]. unfold mbind, M_bind.
  destruct (load_file fs file s) as [[[]|e] s'] eqn:E; [|done].
  intros Hrest. eapply IH; [|exact Hrest]. by eapply load_file_loading.
Qed.

End LoadCycle.

(** ** [unload] *)

Section Unload.
Context `{External}.

Lemma exec_on_empty (fs : filesystem) (c : call) (t : translator) :
  is_load c = false ->
  LOCALE_TO_FILE t = ∅ -> cached_locales t = ∅ ->
  exec fs c t = t.
Proof.
  intros Hc Hi Hcache. destruct c; cbn [exec]; try discriminate.
  - destruct t. cbn in *. by subst.
  - by rewrite get_locale_unregistered by (by rewrite ?Hi, ?Hcache, lookup_empty).
  - unfold get_command, mbind, M_bind.
    by rewrite get_locale_unregistered by (by rewrite ?Hi, ?Hcache, lookup_empty).
  - unfold translate, mbind, M_bind, gets. by rewrite Hi, lookup_empty.
Qed.

Lemma exec_all_on_empty (cs : list (filesystem * call)) (t : translator) :
  Forall (fun c => is_load c.2 = false) cs ->
  LOCALE_TO_FILE t = ∅ -> cached_locales t = ∅ ->
  exec_all cs t = t.
Proof.
  induction 1 as [|[fs c] cs Hc _ IH]; intros Hi Hcache; [done|].
  cbn [exec_all]. rewrite (exec_on_empty fs c t Hc Hi Hcache). by apply IH.
Qed.
End Unload.

(** C7. After [unload()] the cache and the index are both empty; then, and
    after any further calls other than [load()], [get_locale(L)] raises
    [KeyError] for every locale [L], and changes nothing; and a second
    [unload()] leaves the state as it is. *)
Theorem unload_clears_state `{External} (fs : filesystem) (t : translator) (L : Locale)
    (cs : list (filesystem * call)) :
  Forall (fun c => is_load c.2 = false) cs ->
  cached_locales (snd (unload t)) = ∅ /\
  LOCALE_TO_FILE (snd (unload t)) = ∅ /\
  get_locale fs L (snd (unload t)) = (Raise (KeyError (PStr L)), snd (unload t)) /\
  get_locale fs L (exec_all cs (snd (unload t)))
    = (Raise (KeyError (PStr L)), exec_all cs (snd (unload t))) /\
  unload (snd (unload t)) = (Ret tt, snd (unload t)).
Proof.
  intros Hcs. rewrite (exec_all_on_empty cs _ Hcs) by done.
  repeat split; by apply get_locale_unregistered.
Qed.

(** ** [load] *)

Section Load.
Context `{External}.
Variable fs : filesystem.

Local Abbreviation valid := (valid fs).

Lemma load_file_valid (f : string) (t : translator) :
  valid f ->
  exists t1, load_file fs f t = (Ret tt, t1) /\ grows t t1 /\
    forall L, endswith f ".json" = true -> locale_of_file f = Some L ->
      is_Some (LOCALE_TO_FILE t1 !! L) /\ is_Some (cached_locales t1 !! L).
Proof.
  intros Hv. unfold load_file.
  destruct (endswith f ".json") eqn:Ej; [|exists t; by repeat split].
  destruct (Hv Ej) as (L & text & v & HL & Hread & Hjson).
  unfold locale_of_file in *. rewrite HL.
  unfold mbind, M_bind, modify.
  destruct (get_locale fs L (set_LOCALE_TO_FILE L f t)) as [r t1] eqn:Eg.
  assert (exists d, r = Ret d) as [d ->].
  { destruct (cached_locales (set_LOCALE_TO_FILE L f t) !! L) as [d|] eqn:Ec.
    - rewrite (get_locale_cached _ _ _ _ Ec) in Eg. injection Eg as <- _. by eexists.
    - rewrite (get_locale_first fs L f text v _ Ec) in Eg; try done.
      + injection Eg as <- _. by eexists.
      + cbn. by rewrite lookup_insert_eq. }
  exists t1. split; [done|].
  apply get_locale_effect in Eg as (Hidx & Hret & Hcase). cbn in Hidx.
  specialize (Hret d eq_refl).
  assert (grows t t1) as Hg.
  { split; intros L0 Hs.
    - rewrite Hidx. destruct (decide (L = L0)) as [->|]; [by rewrite lookup_insert_eq|].
      by rewrite lookup_insert_ne.
    - destruct Hcase as [[-> _] | (_ & _ & _ & _ & [-> | (d' & _ & ->)])]; cbn; try done.
      destruct (decide (L = L0)) as [->|]; [by rewrite lookup_insert_eq|].
      by rewrite lookup_insert_ne. }
  split; [done|]. intros L0 _ [= <-]. split; [|by rewrite Hret].
  by rewrite Hidx, lookup_insert_eq.
Qed.

Lemma load_files_prefix (pre : list string) (t : translator) :
  (forall f, f ∈ pre -> valid f) ->
  exists t1,
    (forall rest, load_files fs (pre ++ rest) t = load_files fs rest t1) /\
    grows t t1 /\
    forall (f : string) (L : Locale),
      f ∈ pre -> endswith f ".json" = true -> locale_of_file f = Some L ->
      is_Some (LOCALE_TO_FILE t1 !! L) /\ is_Some (cached_locales t1 !! L).
Proof.
  revert t. induction pre as [|f pre IH]; intros t Hv.
  { exists t. split; [done|]. split; [by split|].
    intros g L Hin. by apply elem_of_nil in Hin. }
  destruct (load_file_valid f t) as (t1 & E1 & [Hgi Hgc] & Hf); [apply Hv; by left|].
  destruct (IH t1) as (t2 & E2 & [Hgi2 Hgc2] & Hpre); [intros g Hg; apply Hv; by right|].
  exists t2. split; [|split; [split|]].
  - intros rest. cbn [app load_files]. unfold mbind, M_bind. rewrite E1. apply E2.
  - intros L HL. by apply Hgi2, Hgi.
  - intros L HL. by apply Hgc2, Hgc.
  - intros g L Hin Hj HL. apply elem_of_cons in Hin as [->|Hin]; [|by eapply Hpre].
    destruct (Hf L Hj HL) as [Hi Hc]. split; [by apply Hgi2|by apply Hgc2].
Qed.

End Load.

(** * The properties in the example world *)

(** Closing a goal on the example world by evaluation. *)
Ltac evaluate :=
  first [ by vm_compute
        | by (eexists; vm_compute)
        | by (intros _; vm_compute) ].

Ltac found := unfold finds_document; repeat split; evaluate.

Lemma translate_embed_field_value_witness :
  translate (H := example_external) example_fs (with_key "embed:0:fields:2:value") "en-US"
    (on_command "ping" TranslationContextLocation.other) loaded
  = (Ret (PStr "v2"), loaded).
Proof.
  apply (translate_embed_field_value (H := example_external) example_fs
           (with_key "embed:0:fields:2:value") "en-US"
           (on_command "ping" TranslationContextLocation.other) loaded loaded
           ping_entries ping_embed [("name", PStr "n2"); ("value", PStr "v2")]
           [PDict ping_embed] ping_fields); first [found | evaluate].
Defined.

Lemma translate_embed_absent_or_empty_witness :
  translate (H := example_external) example_fs (with_key "embed:0:title") "en-US"
    (on_command "hollow" TranslationContextLocation.other) loaded
  = (Raise IndexError, loaded).
Proof.
  apply (translate_embed_absent_or_empty (H := example_external) example_fs
           (with_key "embed:0:title") "en-US"
           (on_command "hollow" TranslationContextLocation.other) loaded loaded
           hollow_entries "title"); first [found | evaluate].
Defined.

(** C2 fails in the code: the [embeds] list of the command is present and
    empty, and [translate] with the key [embed:0:title] raises
    [IndexError]; it does not return [None]. *)
Lemma empty_embeds_list_faults :
  get hollow_doc "embeds" = Ret (PList []) /\
  finds_document (H := example_external) example_fs (with_key "embed:0:title") "en-US"
    (on_command "hollow" TranslationContextLocation.other) loaded hollow_doc loaded /\
  fst (translate (H := example_external) example_fs (with_key "embed:0:title") "en-US"
         (on_command "hollow" TranslationContextLocation.other) loaded)
  = Raise IndexError /\
  fst (translate (H := example_external) example_fs (with_key "embed:0:title") "en-US"
         (on_command "hollow" TranslationContextLocation.other) loaded)
  <> Ret PNone.
Proof. split; [evaluate|]. split; [found|]. split; evaluate. Qed.

Lemma malformed_embed_keys_witness :
  translate (H := example_external) example_fs (with_key "embed:0:bogus") "en-US"
    (on_command "ping" TranslationContextLocation.other) loaded
  = (Raise (ValueError (invalid_field_msg "bogus")), loaded).
Proof.
  destruct (malformed_embed_keys (H := example_external) example_fs
              (with_key "embed:0:bogus") "en-US"
              (on_command "ping" TranslationContextLocation.other) loaded loaded
              ping_doc "embed:0:bogus") as [_ Hembed]; [found | evaluate | evaluate |].
  destruct (Hembed [PDict ping_embed] (PDict ping_embed)) as [_ Hbogus]; [evaluate ..|].
  by apply Hbogus.
Defined.

(** C4 fails: on a command without embeds, the keys [embed:0:fields:2] and
    [embed:0:bogus] make [translate] return [None]; no error is raised. *)
Lemma malformed_keys_return_none :
  finds_document (H := example_external) example_fs (with_key "embed:0:bogus") "en-US"
    (on_command "bare" TranslationContextLocation.other) loaded bare_doc loaded /\
  fst (translate (H := example_external) example_fs (with_key "embed:0:bogus") "en-US"
         (on_command "bare" TranslationContextLocation.other) loaded)
  = Ret PNone /\
  fst (translate (H := example_external) example_fs (with_key "embed:0:fields:2") "en-US"
         (on_command "bare" TranslationContextLocation.other) loaded)
  = Ret PNone /\
  (forall e, fst (translate (H := example_external) example_fs (with_key "embed:0:bogus")
                    "en-US" (on_command "bare" TranslationContextLocation.other) loaded)
             <> Raise e).
Proof. split; [found|]. split; [evaluate|]. split; [evaluate|]. intros e. evaluate. Qed.

(** C5 fails on [parameter_name]: for the parameter [target] of [ping],
    whose entry in the options has the name [cible], [translate] returns
    the name of the command, [Ping!]; the branch on the options, which would
    return [cible], is not reached.  For a parameter without an entry
    [translate] returns the name of the command too, not [None]. *)
Lemma parameter_name_gives_command_name :
  finds_document (H := example_external) example_fs (parameter "target") "en-US"
    (on_command "ping" TranslationContextLocation.parameter_name) loaded ping_doc loaded /\
  translate (H := example_external) example_fs (parameter "target") "en-US"
    (on_command "ping" TranslationContextLocation.parameter_name) loaded
  = (Ret (PStr "Ping!"), loaded) /\
  translate_parameter ping_doc (parameter "target") TranslationContextLocation.parameter_name
  = Ret (PStr "cible") /\
  assoc "absent" ping_options = None /\
  translate (H := example_external) example_fs (parameter "absent") "en-US"
    (on_command "ping" TranslationContextLocation.parameter_name) loaded
  = (Ret (PStr "Ping!"), loaded).
Proof. split; [found|]. repeat split; evaluate. Qed.

Lemma explicit_command_wins_witness :
  resolve_command_name (for_command "bare") (on_command "ping" TranslationContextLocation.command_name)
  = PStr "bare" /\
  translate (H := example_external) example_fs (for_command "bare") "en-US"
    (on_command "ping" TranslationContextLocation.command_name) loaded
  = (Ret (PStr "Bare"), loaded).
Proof.
  destruct (explicit_command_wins (H := example_external) example_fs (for_command "bare")
              "en-US" (on_command "ping" TranslationContextLocation.command_name) loaded
              "en-US.json" (PStr "bare") "ping") as [Hname Htranslate];
    [evaluate ..|].
  split; [exact Hname|]. rewrite Htranslate. evaluate.
Defined.

Lemma unload_clears_state_witness :
  get_locale (H := example_external) example_fs "en-US"
    (exec_all (H := example_external)
       [(example_fs, CallTranslate (parameter "target") "en-US"
                       (on_command "ping" TranslationContextLocation.command_name));
        (example_fs, CallUnload)]
       (snd (unload loaded)))
  = (Raise (KeyError (PStr "en-US")), snd (unload loaded)) /\
  LOCALE_TO_FILE loaded !! "en-US" = Some "en-US.json".
Proof.
  destruct (unload_clears_state (H := example_external) example_fs loaded "en-US"
              [(example_fs, CallTranslate (parameter "target") "en-US"
                              (on_command "ping" TranslationContextLocation.command_name));
               (example_fs, CallUnload)])
    as (_ & _ & _ & Hafter & _).
  - repeat constructor.
  - split; [|evaluate]. rewrite Hafter. evaluate.
Defined.

Lemma translate_choice_name_witness :
  translate (H := example_external) example_fs (choice "mode" 1) "en-US"
    (on_command "ping" TranslationContextLocation.choice_name) loaded
  = (Ret (PStr "slow"), loaded).
Proof.
  destruct (translate_choice_name (H := example_external) example_fs (choice "mode" 1)
              "en-US" (on_command "ping" TranslationContextLocation.choice_name)
              loaded loaded ping_entries) as (_ & _ & Hoption); [found | evaluate |].
  destruct (Hoption "mode") as [_ Hoptions]; [evaluate ..|].
  destruct (Hoptions ping_options) as [_ Hentry]; [evaluate|].
  destruct (Hentry mode_entry) as (_ & _ & Hchoices); [evaluate|].
  destruct (Hchoices [PStr "fast"; PStr "slow"] 1) as (_ & Hat & _); [evaluate ..|].
  apply Hat; [lia | reflexivity].
Defined.

(** C8 fails: the [choices] list of the option [level] is present and
    empty, so that index 0 is out of its range, and [translate] returns
    [None]; it does not raise [IndexError]. *)
Lemma empty_choices_return_none :
  finds_document (H := example_external) example_fs (choice "level" 0) "en-US"
    (on_command "ping" TranslationContextLocation.choice_name) loaded ping_doc loaded /\
  assoc "level" ping_options = Some (PDict level_entry) /\
  assoc "choices" level_entry = Some (PList []) /\
  py_getitem (PList []) (PInt 0) = Raise IndexError /\
  fst (translate (H := example_external) example_fs (choice "level" 0) "en-US"
         (on_command "ping" TranslationContextLocation.choice_name) loaded)
  = Ret PNone /\
  fst (translate (H := example_external) example_fs (choice "level" 0) "en-US"
         (on_command "ping" TranslationContextLocation.choice_name) loaded)
  <> Raise IndexError.
Proof. split; [found|]. repeat split; evaluate. Qed.

Lemma non_integer_index_segment_witness :
  translate (H := example_external) example_fs (with_key "embed:x:title") "en-US"
    (on_command "ping" TranslationContextLocation.other) loaded
  = (Raise (InvalidLiteral "x"), loaded) /\
  translate (H := example_external) example_fs (with_key "embed:0:fields:y:name") "en-US"
    (on_command "ping" TranslationContextLocation.other) loaded
  = (Raise (InvalidLiteral "y"), loaded) /\
  translate (H := example_external) example_fs (with_key "embed:x") "en-US"
    (on_command "ping" TranslationContextLocation.other) loaded
  = (Raise (ValueError (invalid_embed_key_msg "embed:x")), loaded).
Proof.
  split; [|split].
  - destruct (non_integer_index_segment (H := example_external) example_fs
                (with_key "embed:x:title") "en-US"
                (on_command "ping" TranslationContextLocation.other) loaded loaded
                ping_doc "embed:x:title") as [Hlong _];
      [found | evaluate ..|].
    destruct (Hlong "embed" "x" "title" []) as [Hindex _]; [reflexivity|].
    by apply Hindex.
  - destruct (non_integer_index_segment (H := example_external) example_fs
                (with_key "embed:0:fields:y:name") "en-US"
                (on_command "ping" TranslationContextLocation.other) loaded loaded
                ping_doc "embed:0:fields:y:name") as [Hlong _];
      [found | evaluate ..|].
    destruct (Hlong "embed" "0" "fields" ["y"; "name"]) as [_ Hfield]; [reflexivity|].
    by apply (Hfield 0 (PList [PDict ping_embed]) (PDict ping_embed) "y" "name").
  - destruct (non_integer_index_segment (H := example_external) example_fs
                (with_key "embed:x") "en-US"
                (on_command "ping" TranslationContextLocation.other) loaded loaded
                ping_doc "embed:x") as [_ Hshort];
      [found | evaluate ..|].
    apply Hshort. vm_compute. lia.
Defined.

(** C10 fails: the key [embed:x] starts with [embed] and its index segment
    is no integer, and [translate] raises the [ValueError] for a malformed
    embed key, whose message holds the key, not the one of [int()]; and
    on a command without embeds the key [embed:0:fields:x:name], whose field
    index is no integer, makes [translate] return [None]. *)
Lemma short_key_is_reported_malformed :
  py_int "x" = None /\
  startswith "embed:x" "embed" = true /\
  fst (translate (H := example_external) example_fs (with_key "embed:x") "en-US"
         (on_command "ping" TranslationContextLocation.other) loaded)
  = Raise (ValueError (invalid_embed_key_msg "embed:x")) /\
  fst (translate (H := example_external) example_fs (with_key "embed:x") "en-US"
         (on_command "ping" TranslationContextLocation.other) loaded)
  <> Raise (InvalidLiteral "x") /\
  fst (translate (H := example_external) example_fs (with_key "embed:0:fields:x:name") "en-US"
         (on_command "bare" TranslationContextLocation.other) loaded)
  = Ret PNone.
Proof. repeat split; evaluate. Qed.

(** An explicit [command] that is not a true value (an empty string)
    gives way to the name of the context data. *)
Lemma empty_command_gives_way (lstr : locale_str) (context : TranslationContext) :
  extras lstr !! "command" = Some (PStr EmptyString) ->
  resolve_command_name lstr context = data_command_name (data context).
Proof. intros E. unfold resolve_command_name, extras_get, py_or. by rewrite E. Qed.

(** * Further properties of the translator *)

(** ** What [translate] may touch *)

Section Frame.
Context `{External}.

Lemma get_command_effect (fs : filesystem) (L : Locale) (name : pyval) (t : translator) :
  snd (get_command fs L name t) = snd (get_locale fs L t).
Proof.
  unfold get_command, mbind, M_bind, lift.
  by destruct (get_locale fs L t) as [[d|e] t1].
Qed.

Lemma translate_effect (fs : filesystem) (lstr : locale_str) (L : Locale)
    (context : TranslationContext) (t : translator) :
  snd (translate fs lstr L context t) = t \/
  snd (translate fs lstr L context t) = snd (get_locale fs L t).
Proof.
  unfold translate, mbind, M_bind, gets, raise.
  destruct (LOCALE_TO_FILE t !! L); [|by left].
  destruct (negb (truthy (resolve_command_name lstr context))); [by left|].
  destruct (_ && _); [by left|].
  right. rewrite <- (get_command_effect fs L (resolve_command_name lstr context) t).
  destruct (get_command fs L (resolve_command_name lstr context) t) as [[command|e] t1];
    [|done].
  by destruct (negb (truthy command)).
Qed.

(** X1.  Whatever its arguments and its outcome, [translate] leaves the index
    [LOCALE_TO_FILE] and the cache of every other locale as they are; it
    changes nothing at all when its locale is cached; and otherwise it
    reads at most one file, the one registered for its locale. *)
Theorem translate_touches_its_locale_only (fs : filesystem) (lstr : locale_str) (L : Locale)
    (context : TranslationContext) (t : translator) :
  LOCALE_TO_FILE (snd (translate fs lstr L context t)) = LOCALE_TO_FILE t /\
  (forall L', L' <> L ->
     cached_locales (snd (translate fs lstr L context t)) !! L' = cached_locales t !! L') /\
  (is_Some (cached_locales t !! L) -> snd (translate fs lstr L context t) = t) /\
  (opened (snd (translate fs lstr L context t)) = opened t \/
   exists file, LOCALE_TO_FILE t !! L = Some file /\
     opened (snd (translate fs lstr L context t)) = path_of file :: opened t).
Proof.
  destruct (translate_effect fs lstr L context t) as [-> | ->].
  { repeat split; auto. }
  destruct (get_locale fs L t) as [r t1] eqn:E. cbn [snd].
  pose proof E as (Hidx & _ & Hcase)%get_locale_effect.
  split; [done|]. split; [|split].
  - intros L' Hne.
    destruct Hcase as [[-> _] | (_ & file & _ & _ & [-> | (d & _ & ->)])]; try done.
    by rewrite lookup_insert_ne.
  - intros [d Hd]. rewrite (get_locale_cached fs L d t Hd) in E. by injection E as _ <-.
  - destruct Hcase as [[-> _] | (_ & file & Hf & Hop & _)]; [by left|].
    right. by exists file.
Qed.
End Frame.

(** ** The first steps of [translate] *)

Lemma seq_index_from_end {A : Type} (l : list A) (i : Z) (x : A) :
  - Z.of_nat (length l) <= i < 0 ->
  l !! Z.to_nat (Z.of_nat (length l) + i) = Some x ->
  seq_index l i = Ret x.
Proof.
  intros [Hlo Hhi] Hx. unfold seq_index, norm_index.
  replace (0 <=? i) with false by (symmetry; apply Z.leb_gt; lia).
  replace (i <? 0) with true by (symmetry; apply Z.ltb_lt; lia).
  replace (0 <=? Z.of_nat (length l) + i) with true by (symmetry; apply Z.leb_le; lia).
  cbn [andb]. by rewrite Hx.
Qed.

Lemma seq_index_outside {A : Type} (l : list A) (i : Z) :
  Z.of_nat (length l) <= i \/ i < - Z.of_nat (length l) ->
  seq_index l i = Raise IndexError.
Proof.
  intros [Hge | Hlt]; [by apply seq_index_beyond|].
  unfold seq_index, norm_index.
  replace (0 <=? i) with false by (symmetry; apply Z.leb_gt; lia).
  replace (0 <=? Z.of_nat (length l) + i) with false by (symmetry; apply Z.leb_gt; lia).
  by rewrite andb_false_r.
Qed.

Section FirstSteps.
Context `{External}.
Variables (fs : filesystem) (lstr : locale_str) (L : Locale).
Variables (context : TranslationContext) (t : translator).

(** X2.  When neither the extras nor the context data give a command name
    (no [command] extra or an empty one; data that is no command, or a
    command with an empty name), [translate] returns [None] for a locale
    that is not registered and raises the [ValueError] that names the
    location for a registered one; in both cases before any file is read
    and whatever the location and its key. *)
Theorem translate_without_command_name :
  truthy (extras_get lstr "command") = false ->
  truthy (data_command_name (data context)) = false ->
  (LOCALE_TO_FILE t !! L = None ->
   translate fs lstr L context t = (Ret PNone, t)) /\
  (is_Some (LOCALE_TO_FILE t !! L) ->
   translate fs lstr L context t
   = (Raise (ValueError (missing_command_msg (location context))), t)).
Proof.
  intros Hextra Hdata. unfold translate, mbind, M_bind, gets. split.
  - by intros ->.
  - intros [file ->]. unfold resolve_command_name, py_or. by rewrite Hextra, Hdata.
Qed.

(** X3.  When the file of the locale has no entry for the command, or an empty
    one, [translate] returns [None]: whatever the location, and also for
    [choice_name] without its extras or an [other] key that is malformed,
    no error is raised. *)
Theorem translate_absent_document (data : pyobj) (m : list (string * pyval)) (n : string) :
  is_Some (LOCALE_TO_FILE t !! L) ->
  cached_locales t !! L = Some data ->
  obj_val data = PDict m ->
  resolve_command_name lstr context = PStr n ->
  n <> EmptyString ->
  (location context = TranslationContextLocation.other ->
   truthy (extras_get lstr "key") = true) ->
  truthy (default PNone (assoc n m)) = false ->
  translate fs lstr L context t = (Ret PNone, t).
Proof.
  intros [file Hfile] Hcache Hval Hname Hn Hkey Hdoc.
  unfold translate, mbind, M_bind, gets. rewrite Hfile, Hname.
  rewrite (truthy_PStr_nonempty _ Hn). cbn [negb].
  assert (bool_decide (location context = TranslationContextLocation.other)
          && negb (truthy (extras_get lstr "key")) = false) as ->.
  { destruct (bool_decide _) eqn:Eo; [|done].
    apply bool_decide_eq_true in Eo. by rewrite (Hkey Eo). }
  unfold get_command, mbind, M_bind, lift.
  rewrite (get_locale_cached fs L data t Hcache), Hval, py_get_dict.
  by rewrite Hdoc.
Qed.

(** X4.  When the cached content of the file of the locale is not an object
    (the file held a JSON list, string or number, which [load] accepts),
    every [translate] that gets as far as the lookup of its command
    raises [AttributeError]. *)
Theorem translate_on_non_object (data : pyobj) :
  is_Some (LOCALE_TO_FILE t !! L) ->
  cached_locales t !! L = Some data ->
  (forall m, obj_val data <> PDict m) ->
  truthy (resolve_command_name lstr context) = true ->
  (location context = TranslationContextLocation.other ->
   truthy (extras_get lstr "key") = true) ->
  translate fs lstr L context t = (Raise AttributeError, t).
Proof.
  intros [file Hfile] Hcache Hval Hname Hkey.
  unfold translate, mbind, M_bind, gets. rewrite Hfile, Hname. cbn [negb].
  assert (bool_decide (location context = TranslationContextLocation.other)
          && negb (truthy (extras_get lstr "key")) = false) as ->.
  { destruct (bool_decide _) eqn:Eo; [|done].
    apply bool_decide_eq_true in Eo. by rewrite (Hkey Eo). }
  unfold get_command, mbind, M_bind, lift.
  rewrite (get_locale_cached fs L data t Hcache).
  destruct (obj_val data) eqn:E; try done. by destruct (Hval d).
Qed.
End FirstSteps.

(** ** The table of locations *)

Section Locations.
Context `{External}.
Variables (fs : filesystem) (lstr : locale_str) (L : Locale).
Variables (context : TranslationContext) (t t' : translator).

(** X5.  On a found document, [command_name] gives its [name],
    [command_description] and [group_description] give its
    [description] ([None] when the entry is missing), and [group_name],
    which no test of the chain takes, gives [None] even when the document
    has a name. *)
Theorem translate_name_and_description (d : list (string * pyval)) :
  finds_document fs lstr L context t (PDict d) t' ->
  (location context = TranslationContextLocation.command_name ->
   translate fs lstr L context t = (Ret (default PNone (assoc "name" d)), t')) /\
  (location context = TranslationContextLocation.command_description \/
   location context = TranslationContextLocation.group_description ->
   translate fs lstr L context t = (Ret (default PNone (assoc "description" d)), t')) /\
  (location context = TranslationContextLocation.group_name ->
   translate fs lstr L context t = (Ret PNone, t')).
Proof.
  intros Hdoc. rewrite (translate_reaches_dispatch _ _ _ _ _ _ _ Hdoc).
  split; [|split].
  - intros ->. change (dispatch (PDict d) lstr TranslationContextLocation.command_name)
      with (get (PDict d) "name"). by rewrite get_dict.
  - intros [-> | ->].
    + change (dispatch (PDict d) lstr TranslationContextLocation.command_description)
        with (get (PDict d) "description"). by rewrite get_dict.
    + change (dispatch (PDict d) lstr TranslationContextLocation.group_description)
        with (get (PDict d) "description"). by rewrite get_dict.
  - by intros ->.
Qed.

(** X6.  With location [other] on a found document: the key [content] gives
    the [content] of the document; a key that does not start with [embed]
    and is not [content] gives [None]; and a key that is a true value but
    no string raises [AttributeError]. *)
Theorem translate_other_keys (d : list (string * pyval)) :
  finds_document fs lstr L context t (PDict d) t' ->
  location context = TranslationContextLocation.other ->
  (extras lstr !! "key" = Some (PStr "content") ->
   translate fs lstr L context t = (Ret (default PNone (assoc "content" d)), t')) /\
  (forall key, extras lstr !! "key" = Some (PStr key) ->
     startswith key "embed" = false -> key <> "content" ->
     translate fs lstr L context t = (Ret PNone, t')) /\
  (forall v, extras lstr !! "key" = Some v -> (forall key, v <> PStr key) ->
     translate fs lstr L context t = (Raise AttributeError, t')).
Proof.
  intros Hdoc Hloc.
  rewrite (translate_reaches_dispatch _ _ _ _ _ _ _ Hdoc), dispatch_other by done.
  destruct Hdoc as (_ & _ & Hkey & _). specialize (Hkey Hloc).
  split; [|split].
  - intros Hk. rewrite (translate_other_key _ _ "content" Hk) by done.
    change (startswith "content" "embed") with false.
    change ("content" =? "content")%string with true. cbv iota.
    by rewrite get_dict.
  - intros key Hk Hpre Hne.
    assert (key <> EmptyString) as Hnonempty.
    { intros ->. unfold extras_get in Hkey. by rewrite Hk in Hkey. }
    rewrite (translate_other_key _ _ key Hk Hnonempty), Hpre.
    by apply String.eqb_neq in Hne as ->.
  - intros v Hk Hv. unfold translate_other, py_or. unfold extras_get in *.
    rewrite Hk in *. cbn [default from_option] in *. unfold id in *.
    destruct v as [| | | |key| |]; rewrite ?Hkey; cbn [negb]; try reflexivity.
    by destruct (Hv key).
Qed.
End Locations.

(** ** The fields of an embed *)

Lemma truthy_PDict_nonempty (e : list (string * pyval)) : e <> [] -> truthy (PDict e) = true.
Proof. by destruct e. Qed.

Section EmbedFields.
Context `{External}.
Variables (fs : filesystem) (lstr : locale_str) (L : Locale).
Variables (context : TranslationContext) (t t' : translator).
Variables (command : pyval) (key seg idx field : string) (rest : list string).

Hypothesis Hdoc : finds_document fs lstr L context t command t'.
Hypothesis Hloc : location context = TranslationContextLocation.other.
Hypothesis Hkey : extras lstr !! "key" = Some (PStr key).
Hypothesis Hpre : startswith key "embed" = true.
Hypothesis Hsplit : split ":" key = seg :: idx :: field :: rest.

(** The embed key once its index is read and its embed found. *)
Lemma translate_embed_at (i : Z) (embeds embed : pyval) :
  py_int idx = Some i ->
  get_or command "embeds" (PList [PDict []]) = Ret embeds ->
  py_getitem embeds (PInt i) = Ret embed ->
  translate fs lstr L context t =
    (if negb (truthy embed) then Ret PNone
     else if String.eqb (lower field) "title" then get embed "title"
     else if String.eqb (lower field) "description" then get embed "description"
     else if String.eqb (lower field) "footer" then
       footer ← get_or embed "footer" (PDict []); get footer "text"
     else if String.eqb (lower field) "author" then
       author ← get_or embed "author" (PDict []); get author "name"
     else if String.eqb (lower field) "fields" then translate_embed_fields embed key rest
     else Raise (ValueError (invalid_field_msg (lower field))), t').
Proof.
  intros Hi Hembeds Hembed.
  rewrite (translate_other_embed _ _ _ _ _ _ _ _ Hdoc Hloc Hkey Hpre).
  unfold translate_embed. rewrite Hsplit. unfold int_of_str. rewrite Hi.
  by rewrite bind_Ret, Hembeds, bind_Ret, Hembed, bind_Ret.
Qed.

(** X7.  With location [other] and a key [<embed...>:<index>:<field>], on a
    document whose embed at the index is a dict that is not empty: the
    field is compared in lower case, and segments after it are ignored;
    [title] and [description] give the entries of the embed, [footer] gives
    [footer.text] and [author] gives [author.name], [None] when an entry
    is missing; any field other than these and [fields] raises the
    [ValueError] that names it in lower case. *)
Theorem translate_embed_scalar_fields (i : Z) (embeds : pyval) (e : list (string * pyval)) :
  py_int idx = Some i ->
  get_or command "embeds" (PList [PDict []]) = Ret embeds ->
  py_getitem embeds (PInt i) = Ret (PDict e) ->
  e <> [] ->
  (lower field = "title" ->
   translate fs lstr L context t = (Ret (default PNone (assoc "title" e)), t')) /\
  (lower field = "description" ->
   translate fs lstr L context t = (Ret (default PNone (assoc "description" e)), t')) /\
  (lower field = "footer" ->
   (assoc "footer" e = None -> translate fs lstr L context t = (Ret PNone, t')) /\
   (forall f, assoc "footer" e = Some (PDict f) ->
      translate fs lstr L context t = (Ret (default PNone (assoc "text" f)), t'))) /\
  (lower field = "author" ->
   (assoc "author" e = None -> translate fs lstr L context t = (Ret PNone, t')) /\
   (forall a, assoc "author" e = Some (PDict a) ->
      translate fs lstr L context t = (Ret (default PNone (assoc "name" a)), t'))) /\
  (~ In (lower field) ["title"; "description"; "footer"; "author"; "fields"] ->
   translate fs lstr L context t = (Raise (ValueError (invalid_field_msg (lower field))), t')).
Proof.
  intros Hi Hembeds Hembed He.
  rewrite (translate_embed_at i embeds (PDict e) Hi Hembeds Hembed).
  rewrite (truthy_PDict_nonempty e He). cbn [negb].
  split; [|split; [|split; [|split]]].
  - intros ->. cbn [String.eqb Ascii.eqb Bool.eqb]. by rewrite get_dict.
  - intros ->. cbn [String.eqb Ascii.eqb Bool.eqb]. by rewrite get_dict.
  - intros ->. cbn [String.eqb Ascii.eqb Bool.eqb]. split.
    + intros Hf. by rewrite (get_or_absent _ _ _ Hf).
    + intros f Hf. by rewrite (get_or_present _ _ _ _ Hf), bind_Ret, get_dict.
  - intros ->. cbn [String.eqb Ascii.eqb Bool.eqb]. split.
    + intros Hf. by rewrite (get_or_absent _ _ _ Hf).
    + intros a Hf. by rewrite (get_or_present _ _ _ _ Hf), bind_Ret, get_dict.
  - intros Hnot.
    assert (forall s, In s ["title"; "description"; "footer"; "author"; "fields"] ->
                      String.eqb (lower field) s = false) as Hno.
    { intros s Hs. apply String.eqb_neq. intros E. apply Hnot. by rewrite E. }
    by rewrite !Hno by (cbn [In]; tauto).
Qed.

(** X8.  With the field [fields], on such an embed: no segment after it, one,
    or more than two raise the [ValueError] for a malformed fields key;
    with two, [<field_index>:<type>], an empty field at the index gives
    [None] whatever the type, and on a field that is not empty the types
    [name] and [value], compared as they are written, give its entries
    and any other type (also [NAME]) raises the [ValueError] that names
    it. *)
Theorem translate_embed_field_types (i : Z) (embeds : pyval) (e : list (string * pyval)) :
  py_int idx = Some i ->
  get_or command "embeds" (PList [PDict []]) = Ret embeds ->
  py_getitem embeds (PInt i) = Ret (PDict e) ->
  e <> [] ->
  lower field = "fields" ->
  (length rest <> 2%nat ->
   translate fs lstr L context t
   = (Raise (ValueError (invalid_embed_fields_key_msg key)), t')) /\
  (forall field_idx field_type j fields f,
     rest = [field_idx; field_type] ->
     py_int field_idx = Some j ->
     get_or (PDict e) "fields" (PList [PDict []]) = Ret fields ->
     py_getitem fields (PInt j) = Ret (PDict f) ->
     (f = [] -> translate fs lstr L context t = (Ret PNone, t')) /\
     (f <> [] ->
      (field_type = "name" ->
       translate fs lstr L context t = (Ret (default PNone (assoc "name" f)), t')) /\
      (field_type = "value" ->
       translate fs lstr L context t = (Ret (default PNone (assoc "value" f)), t')) /\
      (field_type <> "name" -> field_type <> "value" ->
       translate fs lstr L context t
       = (Raise (ValueError (invalid_field_type_msg field_type)), t')))).
Proof.
  intros Hi Hembeds Hembed He Hfield.
  rewrite (translate_embed_at i embeds (PDict e) Hi Hembeds Hembed).
  rewrite (truthy_PDict_nonempty e He), Hfield. cbn [negb String.eqb Ascii.eqb Bool.eqb].
  unfold translate_embed_fields. split.
  - intros Hlen. destruct rest as [|a [|b [|c more]]]; try done.
  - intros field_idx field_type j fields f -> Hj Hfields Hf.
    unfold int_of_str. rewrite Hj, bind_Ret, Hfields, bind_Ret, Hf, bind_Ret.
    split; [by intros ->|].
    intros Hne. rewrite (truthy_PDict_nonempty f Hne). cbn [negb].
    split; [|split].
    + intros ->. cbn [String.eqb Ascii.eqb Bool.eqb]. by rewrite get_dict.
    + intros ->. cbn [String.eqb Ascii.eqb Bool.eqb]. by rewrite get_dict.
    + intros Hn Hv. apply String.eqb_neq in Hn, Hv. by rewrite Hn, Hv.
Qed.

(** X9.  On a document without an [embeds] entry, the default list of one empty
    embed answers the indices 0 and -1 with [None], and every other index
    raises [IndexError]; on a document with a list of embeds, an index
    from the length of the list on, or below minus the length, raises
    [IndexError], and a negative index down to minus the length counts
    from the end of the list. *)
Theorem translate_embed_index (d : list (string * pyval)) (i : Z) :
  command = PDict d ->
  py_int idx = Some i ->
  (assoc "embeds" d = None ->
   (i = 0 \/ i = -1 -> translate fs lstr L context t = (Ret PNone, t')) /\
   (i <> 0 -> i <> -1 -> translate fs lstr L context t = (Raise IndexError, t'))) /\
  (forall embeds, assoc "embeds" d = Some (PList embeds) ->
   (Z.of_nat (length embeds) <= i \/ i < - Z.of_nat (length embeds) ->
    translate fs lstr L context t = (Raise IndexError, t')) /\
   (forall e, - Z.of_nat (length embeds) <= i < 0 ->
      embeds !! Z.to_nat (Z.of_nat (length embeds) + i) = Some (PDict e) ->
      e <> [] -> lower field = "title" ->
      translate fs lstr L context t = (Ret (default PNone (assoc "title" e)), t'))).
Proof.
  intros -> Hi.
  assert (forall embeds r,
            get_or (PDict d) "embeds" (PList [PDict []]) = Ret (PList embeds) ->
            seq_index embeds i = r ->
            translate fs lstr L context t = (r ≫= (fun embed =>
              if negb (truthy embed) then Ret PNone
              else if String.eqb (lower field) "title" then get embed "title"
              else if String.eqb (lower field) "description" then get embed "description"
              else if String.eqb (lower field) "footer" then
                footer ← get_or embed "footer" (PDict []); get footer "text"
              else if String.eqb (lower field) "author" then
                author ← get_or embed "author" (PDict []); get author "name"
              else if String.eqb (lower field) "fields"
                   then translate_embed_fields embed key rest
              else Raise (ValueError (invalid_field_msg (lower field)))), t')) as Hstep.
  { intros embeds r Hembeds <-.
    rewrite (translate_other_embed _ _ _ _ _ _ _ _ Hdoc Hloc Hkey Hpre).
    unfold translate_embed. rewrite Hsplit. unfold int_of_str. rewrite Hi.
    by rewrite bind_Ret, Hembeds, bind_Ret, getitem_list. }
  split.
  - intros Habsent. pose proof (get_or_absent d "embeds" (PList [PDict []]) Habsent) as Hdef.
    split.
    + intros [-> | ->]; by rewrite (Hstep _ (Ret (PDict [])) Hdef).
    + intros H0 H1. rewrite (Hstep _ (Raise IndexError) Hdef); [done|].
      apply seq_index_outside. cbn. lia.
  - intros embeds Hembeds.
    pose proof (get_or_present d "embeds" _ (PList [PDict []]) Hembeds) as Hget.
    split.
    + intros Hout. by rewrite (Hstep _ (Raise IndexError) Hget) by by apply seq_index_outside.
    + intros e Hin He Hne Htitle.
      rewrite (Hstep _ (Ret (PDict e)) Hget) by by apply seq_index_from_end.
      rewrite bind_Ret, (truthy_PDict_nonempty e Hne), Htitle.
      cbn [negb String.eqb Ascii.eqb Bool.eqb]. by rewrite get_dict.
Qed.
End EmbedFields.

(** ** Files that are not JSON *)

Section Failures.
Context `{External}.

(** X10.  A registered file that cannot be opened makes [get_locale] raise
    [OSError] and change nothing.  A file that is read and is not JSON
    makes it raise [JSONDecodeError]: the locale stays registered and is
    not cached, so that the next [get_locale] reads the file again and
    fails again. *)
Theorem get_locale_failure_is_not_cached (fs : filesystem) (L : Locale) (file : string)
    (t : translator) :
  cached_locales t !! L = None ->
  LOCALE_TO_FILE t !! L = Some file ->
  (read_file fs (path_of file) = None ->
   get_locale fs L t = (Raise (OSError (path_of file)), t)) /\
  (forall text, read_file fs (path_of file) = Some text -> json_loads text = None ->
     fst (get_locale fs L t) = Raise JSONDecodeError /\
     cached_locales (snd (get_locale fs L t)) !! L = None /\
     LOCALE_TO_FILE (snd (get_locale fs L t)) !! L = Some file /\
     reads_of file (snd (get_locale fs L t)) = S (reads_of file t) /\
     fst (get_locale fs L (snd (get_locale fs L t))) = Raise JSONDecodeError /\
     reads_of file (snd (get_locale fs L (snd (get_locale fs L t))))
     = S (S (reads_of file t))).
Proof.
  intros Hc Hi.
  assert (forall s text, cached_locales s !! L = None -> LOCALE_TO_FILE s !! L = Some file ->
            read_file fs (path_of file) = Some text -> json_loads text = None ->
            get_locale fs L s =
              (Raise JSONDecodeError,
               {| LOCALE_TO_FILE := LOCALE_TO_FILE s; cached_locales := cached_locales s;
                  opened := path_of file :: opened s; next_id := next_id s |})) as Hfail.
  { intros s text Hcs His Hr Hj. unfold get_locale, mbind, M_bind, gets.
    rewrite Hcs, His. unfold open_read. rewrite Hr. unfold loads. cbn. by rewrite Hj. }
  split.
  - intros Hr. unfold get_locale, mbind, M_bind, gets. rewrite Hc, Hi.
    unfold open_read. by rewrite Hr.
  - intros text Hr Hj. rewrite (Hfail t text Hc Hi Hr Hj). cbn [fst snd].
    rewrite (Hfail _ text) by done. cbn [fst snd cached_locales LOCALE_TO_FILE].
    unfold reads_of. cbn [opened]. rewrite !count_cons_eq. by repeat split.
Qed.
End Failures.

(** ** What [load] registers and caches *)

Lemma split_at_separator (sep : ascii) (s1 s2 : string) :
  has_char sep s1 = false ->
  split sep (s1 +:+ String sep s2) = s1 :: split sep s2.
Proof.
  induction s1 as [|c s1 IH]; cbn [has_char]; intros Hno.
  - change (EmptyString +:+ String sep s2) with (String sep s2).
    cbn [split]. by rewrite Ascii.eqb_refl.
  - apply orb_false_iff in Hno as [Hc Hs].
    change (String c s1 +:+ String sep s2) with (String c (s1 +:+ String sep s2)).
    cbn [split]. by rewrite Hc, (IH Hs).
Qed.

Lemma find_first {A : Type} (P : A -> bool) (l : list A) (x : A) :
  List.find P l = Some x ->
  exists pre rest, l = (pre ++ x :: rest)%list /\ P x = true /\ Forall (fun y => P y = false) pre.
Proof.
  induction l as [|y l IH]; [done|]. cbn [List.find].
  destruct (P y) eqn:Ey.
  - intros [= ->]. by exists [], l.
  - intros Hf. destruct (IH Hf) as (pre & rest & -> & Hx & Hpre).
    exists (y :: pre), rest. repeat split; [done|]. by constructor.
Qed.

Lemma find_app_last {A : Type} (P : A -> bool) (l : list A) (x : A) :
  List.find P (l ++ [x])%list =
    match List.find P l with
    | Some y => Some y
    | None => if P x then Some x else None
    end.
Proof.
  induction l as [|y l IH]; [done|]. cbn [app List.find].
  by destruct (P y).
Qed.

Section Registering.
Context `{External}.

(** X11.  A file is registered under the text before its first dot: a name
    made of a locale without a dot, a dot and anything is taken for a file
    of this locale (so is [en-US.old.json] for [en-US]). *)
Theorem file_is_named_by_its_first_segment (L rest : string) :
  In L Locale_values ->
  has_char "." L = false ->
  stem (L +:+ "." +:+ rest) = L /\ locale_of_file (L +:+ "." +:+ rest) = Some L.
Proof.
  intros Hin Hdot.
  assert (stem (L +:+ "." +:+ rest) = L) as Hstem.
  { unfold stem. change ("." +:+ rest) with (String "." rest).
    by rewrite split_at_separator. }
  split; [done|]. unfold locale_of_file, discord_Locale. rewrite Hstem.
  apply list_elem_of_In in Hin. by rewrite bool_decide_eq_true_2.
Qed.

Lemma get_locale_same_files (fs fs' : filesystem) (L : Locale) (t : translator) :
  (forall p, read_file fs' p = read_file fs p) ->
  get_locale fs' L t = get_locale fs L t.
Proof.
  intros Hsame. unfold get_locale, mbind, M_bind, gets.
  destruct (cached_locales t !! L); [done|].
  destruct (LOCALE_TO_FILE t !! L); [|done].
  unfold open_read. by rewrite Hsame.
Qed.

Lemma load_files_same_files (fs fs' : filesystem) (files : list string) (t : translator) :
  (forall p, read_file fs' p = read_file fs p) ->
  load_files fs' files t = load_files fs files t.
Proof.
  intros Hsame. revert t. induction files as [|f files IH]; intros t; [done|].
  cbn [load_files]. unfold mbind, M_bind.
  assert (load_file fs' f t = load_file fs f t) as ->.
  { unfold load_file. destruct (endswith f ".json"); [|done].
    destruct (discord_Locale (stem f)); [|done].
    unfold mbind, M_bind, modify. by rewrite (get_locale_same_files fs fs'). }
  destruct (load_file fs f t) as [[[]|e] t1]; [apply IH|done].
Qed.

Lemma load_files_json_only (fs : filesystem) (files : list string) (t : translator) :
  load_files fs (List.filter (fun f => endswith f ".json") files) t = load_files fs files t.
Proof.
  revert t. induction files as [|f files IH]; intros t; [done|].
  cbn [List.filter load_files]. destruct (endswith f ".json") eqn:Ej.
  - cbn [load_files]. unfold mbind, M_bind.
    destruct (load_file fs f t) as [[[]|e] t1]; [apply IH|done].
  - rewrite IH. unfold mbind, M_bind, load_file. by rewrite Ej.
Qed.

(** X12.  [load] goes by the [.json] entries of the directory alone: with the
    other entries removed from the listing, whatever their names, it
    returns or raises the same and leaves the same translator. *)
Theorem load_ignores_other_entries (fs fs' : filesystem) (files : list string)
    (t : translator) :
  os_listdir fs LOCALS_PATH = Some files ->
  os_listdir fs' LOCALS_PATH = Some (List.filter (fun f => endswith f ".json") files) ->
  (forall p, read_file fs' p = read_file fs p) ->
  load fs' t = load fs t.
Proof.
  intros Hdir Hdir' Hsame. unfold load. rewrite Hdir, Hdir'.
  by rewrite (load_files_same_files fs fs'), load_files_json_only.
Qed.
End Registering.

Section LoadResult.
Context `{External}.
Variable fs : filesystem.

Lemma register_lookup (index : gmap Locale string) (f : string) (L : Locale) :
  register index f !! L = if file_of_locale L f then Some f else index !! L.
Proof.
  unfold register, file_of_locale. destruct (endswith f ".json"); [|done].
  destruct (locale_of_file f) as [L'|] eqn:El; cbn [andb].
  - destruct (decide (L' = L)) as [->|Hne].
    + by rewrite bool_decide_eq_true_2, lookup_insert_eq.
    + rewrite bool_decide_eq_false_2 by congruence. by rewrite lookup_insert_ne.
  - by rewrite bool_decide_eq_false_2.
Qed.

Lemma register_all_lookup (files : list string) (index : gmap Locale string) (L : Locale) :
  register_all files index !! L =
    match last_file L files with
    | Some g => Some g
    | None => index !! L
    end.
Proof.
  unfold register_all, last_file. revert index.
  induction files as [|f files IH]; intros index; [done|].
  cbn [fold_left rev]. rewrite IH, find_app_last, register_lookup.
  destruct (List.find (file_of_locale L) (rev files)); [done|].
  by destruct (file_of_locale L f).
Qed.

Lemma register_all_twice (files : list string) (index : gmap Locale string) :
  register_all files (register_all files index) = register_all files index.
Proof.
  apply map_eq. intros L. rewrite !register_all_lookup.
  by destruct (last_file L files).
Qed.

Lemma load_file_index (file : string) (t : translator) :
  LOCALE_TO_FILE (snd (load_file fs file t)) = register (LOCALE_TO_FILE t) file.
Proof.
  unfold load_file, register, locale_of_file.
  destruct (endswith file ".json"); [|done].
  destruct (discord_Locale (stem file)) as [L|]; [|done].
  unfold mbind, M_bind, modify.
  destruct (get_locale fs L (set_LOCALE_TO_FILE L file t)) as [r t1] eqn:E.
  apply get_locale_effect in E as (Hidx & _). by destruct r.
Qed.

Lemma load_files_index (files : list string) (t t1 : translator) :
  load_files fs files t = (Ret tt, t1) ->
  LOCALE_TO_FILE t1 = register_all files (LOCALE_TO_FILE t).
Proof.
  revert t. induction files as [|f files IH]; intros t; [by intros [= <-]|].
  cbn [load_files]. unfold mbind, M_bind.
  pose proof (load_file_index f t) as Hf.
  destruct (load_file fs f t) as [[[]|e] t'] eqn:E; [|done].
  intros Hrest. rewrite (IH _ Hrest). cbn [snd] in Hf. by rewrite Hf.
Qed.

(** [load_file] keeps what is cached and caches nothing for the locales
    that the file is not registered under. *)
Lemma load_file_cache (file : string) (t : translator) (L : Locale) :
  (forall d, cached_locales t !! L = Some d ->
             cached_locales (snd (load_file fs file t)) !! L = Some d) /\
  (file_of_locale L file = false ->
   cached_locales (snd (load_file fs file t)) !! L = cached_locales t !! L).
Proof.
  unfold load_file, file_of_locale, locale_of_file.
  destruct (endswith file ".json"); [|done].
  destruct (discord_Locale (stem file)) as [L'|]; [|done].
  unfold mbind, M_bind, modify.
  destruct (get_locale fs L' (set_LOCALE_TO_FILE L' file t)) as [r t1] eqn:E.
  apply get_locale_effect in E as (_ & _ & Hcase). cbn in Hcase.
  assert ((forall d, cached_locales t !! L = Some d -> cached_locales t1 !! L = Some d) /\
          (true && bool_decide (Some L' = Some L) = false ->
           cached_locales t1 !! L = cached_locales t !! L)) as Hgoal.
  { destruct Hcase as [[-> _] | (Hnc & _ & _ & _ & [-> | (d' & _ & ->)])]; try done.
    split.
    - intros d Hd. rewrite lookup_insert_ne; [done|]. congruence.
    - cbn [andb]. intros Hne. apply bool_decide_eq_false in Hne.
      rewrite lookup_insert_ne; [done|]. congruence. }
  by destruct r.
Qed.

Lemma load_files_cache (files : list string) (t : translator) (L : Locale) :
  (forall d, cached_locales t !! L = Some d ->
             cached_locales (snd (load_files fs files t)) !! L = Some d) /\
  (Forall (fun f => file_of_locale L f = false) files ->
   cached_locales (snd (load_files fs files t)) !! L = cached_locales t !! L).
Proof.
  revert t. induction files as [|f files IH]; intros t; [done|].
  cbn [load_files]. unfold mbind, M_bind.
  destruct (load_file_cache f t L) as [Hkeep Hother].
  destruct (load_file fs f t) as [[[]|e] t1] eqn:E; cbn [snd] in *.
  - destruct (IH t1) as [Hkeep' Hother']. split.
    + intros d Hd. by apply Hkeep', Hkeep.
    + intros Hall. apply Forall_cons in Hall as [Hf Hall].
      by rewrite (Hother' Hall), (Hother Hf).
  - split; [done|]. intros Hall. apply Forall_cons in Hall as [Hf _]. by apply Hother.
Qed.

Lemma load_files_app_Ret (pre rest : list string) (t t1 : translator) :
  load_files fs (pre ++ rest) t = (Ret tt, t1) ->
  exists ta, load_files fs pre t = (Ret tt, ta) /\ load_files fs rest ta = (Ret tt, t1).
Proof.
  revert t. induction pre as [|f pre IH]; intros t; [by exists t|].
  cbn [app load_files]. unfold mbind, M_bind.
  destruct (load_file fs f t) as [[[]|e] t'] eqn:E; [|done].
  intros Hrest. destruct (IH _ Hrest) as (ta & Hpre & Hr). by exists ta.
Qed.

(** When every [.json] file of the listing is named after a locale that
    is cached, [load_files] reads nothing and only assigns the index. *)
Lemma load_files_when_cached (files : list string) (t : translator) :
  Forall (fun f => endswith f ".json" = true ->
            exists L, locale_of_file f = Some L /\ is_Some (cached_locales t !! L)) files ->
  load_files fs files t = (Ret tt, with_index (register_all files (LOCALE_TO_FILE t)) t).
Proof.
  revert t. induction files as [|f files IH]; intros t Hall.
  { cbn. by destruct t. }
  apply Forall_cons in Hall as [Hf Hall].
  cbn [load_files]. unfold mbind, M_bind.
  assert (load_file fs f t = (Ret tt, with_index (register (LOCALE_TO_FILE t) f) t)) as ->.
  { unfold load_file, register. destruct (endswith f ".json"); [|by destruct t].
    destruct (Hf eq_refl) as (L & HL & [d Hd]). rewrite HL.
    unfold locale_of_file in HL. rewrite HL. unfold mbind, M_bind, modify.
    by rewrite (get_locale_cached fs L d). }
  rewrite IH; [done|].
  eapply Forall_impl; [exact Hall|]. intros g Hg Hj. exact (Hg Hj).
Qed.

Lemma load_files_caches (files : list string) (t t1 : translator) :
  load_files fs files t = (Ret tt, t1) ->
  Forall (fun f => endswith f ".json" = true ->
            exists L, locale_of_file f = Some L /\ is_Some (cached_locales t1 !! L)) files.
Proof.
  revert t. induction files as [|f files IH]; intros t; [by constructor|].
  cbn [load_files]. unfold mbind, M_bind.
  destruct (load_file fs f t) as [[[]|e] t'] eqn:E; [|done].
  intros Hrest. constructor; [|by eapply IH].
  intros Hj. revert E. unfold load_file, locale_of_file. rewrite Hj.
  destruct (discord_Locale (stem f)) as [L|]; [|done].
  unfold mbind, M_bind, modify.
  destruct (get_locale fs L (set_LOCALE_TO_FILE L f t)) as [[d|e] t2] eqn:Eg; [|done].
  intros [= <-]. exists L. split; [done|].
  apply get_locale_effect in Eg as (_ & Hret & _).
  exists d. destruct (load_files_cache files t2 L) as [Hkeep _].
  rewrite Hrest in Hkeep. by apply Hkeep, Hret.
Qed.

Lemma get_locale_returns (L : Locale) (t t1 : translator) (d : pyobj) :
  cached_locales t !! L = None ->
  get_locale fs L t = (Ret d, t1) ->
  exists file text,
    LOCALE_TO_FILE t !! L = Some file /\
    read_file fs (path_of file) = Some text /\
    json_loads text = Some (obj_val d) /\
    cached_locales t1 !! L = Some d.
Proof.
  intros Hc. unfold get_locale, mbind, M_bind, gets, modify. rewrite Hc.
  destruct (LOCALE_TO_FILE t !! L) as [file|]; [|done].
  unfold open_read. destruct (read_file fs (path_of file)) as [text|] eqn:Er; [|done].
  unfold loads. cbn [next_id]. destruct (json_loads text) as [v|] eqn:Ej; [|done].
  cbn. intros [= <- <-]. exists file, text. cbn. by rewrite lookup_insert_eq.
Qed.

(** X13.  A [load()] that returned is idempotent: called again on the same
    directory it returns, reads no file and leaves the translator as it
    is. *)
Theorem load_twice (t t1 : translator) :
  load fs t = (Ret tt, t1) -> load fs t1 = (Ret tt, t1).
Proof.
  unfold load. destruct (os_listdir fs LOCALS_PATH) as [files|]; [|done].
  intros Hload.
  rewrite (load_files_when_cached files t1) by by eapply load_files_caches.
  rewrite (load_files_index files t t1 Hload), register_all_twice.
  rewrite <- (load_files_index files t t1 Hload). by destruct t1.
Qed.

End LoadResult.

(** ** The state that a [load] leaves *)

Section LoadCycles.
Context `{External}.

Lemma index_wf_init : index_wf init.
Proof. intros L file. cbn. by rewrite lookup_empty. Qed.

Lemma load_file_index_wf (fs : filesystem) (file : string) (t : translator) :
  index_wf t -> index_wf (snd (load_file fs file t)).
Proof.
  intros Hwf L f. rewrite load_file_index, register_lookup.
  destruct (file_of_locale L file) eqn:E; [|apply Hwf].
  intros [= <-]. unfold file_of_locale in E.
  apply andb_true_iff in E as [_ E]. by apply bool_decide_eq_true in E.
Qed.

Lemma load_files_index_wf (fs : filesystem) (files : list string) (t : translator) :
  index_wf t -> index_wf (snd (load_files fs files t)).
Proof.
  revert t. induction files as [|f files IH]; intros t Hwf; [done|].
  cbn [load_files]. unfold mbind, M_bind.
  pose proof (load_file_index_wf fs f t Hwf) as Hf.
  destruct (load_file fs f t) as [[[]|e] t1]; cbn [snd] in *; [by apply IH|done].
Qed.

Lemma get_locale_index_wf (fs : filesystem) (L : Locale) (t : translator) :
  index_wf t -> index_wf (snd (get_locale fs L t)).
Proof.
  intros Hwf. destruct (get_locale fs L t) as [r t1] eqn:E.
  apply get_locale_effect in E as (Hidx & _). intros L0 f. cbn [snd]. rewrite Hidx. apply Hwf.
Qed.

Lemma exec_index_wf (fs : filesystem) (c : call) (t : translator) :
  index_wf t -> index_wf (exec fs c t).
Proof.
  intros Hwf. destruct c; cbn [exec].
  - unfold load. destruct (os_listdir fs LOCALS_PATH); [by apply load_files_index_wf|done].
  - intros L f. cbn. by rewrite lookup_empty.
  - by apply get_locale_index_wf.
  - rewrite get_command_effect. by apply get_locale_index_wf.
  - destruct (translate_effect fs lstr locale context t) as [-> | ->]; [done|].
    by apply get_locale_index_wf.
Qed.

(** In every state that the translator reaches, the files of the index
    are registered under the locales of their names. *)
Lemma exec_all_index_wf (cs : list (filesystem * call)) (t : translator) :
  index_wf t -> index_wf (exec_all cs t).
Proof.
  revert t. induction cs as [|[fs c] cs IH]; intros t Hwf; [done|].
  cbn [exec_all]. by apply IH, exec_index_wf.
Qed.

Lemma file_of_locale_true (L : Locale) (f : string) :
  file_of_locale L f = true <-> endswith f ".json" = true /\ locale_of_file f = Some L.
Proof.
  unfold file_of_locale. rewrite andb_true_iff, bool_decide_eq_true. tauto.
Qed.

Lemma first_file_exists (L : Locale) (files : list string) (f : string) :
  f ∈ files -> file_of_locale L f = true ->
  exists g, first_file L files = Some g.
Proof.
  intros Hin Hf. unfold first_file.
  destruct (List.find (file_of_locale L) files) as [g|] eqn:E; [by exists g|].
  apply list_elem_of_In in Hin. rewrite (List.find_none _ _ E f Hin) in Hf. discriminate.
Qed.

Lemma last_file_exists (L : Locale) (files : list string) (f : string) :
  f ∈ files -> file_of_locale L f = true ->
  exists g, last_file L files = Some g.
Proof.
  intros Hin Hf. unfold last_file.
  destruct (List.find (file_of_locale L) (rev files)) as [g|] eqn:E; [by exists g|].
  apply list_elem_of_In, in_rev in Hin. rewrite (List.find_none _ _ E f Hin) in Hf. discriminate.
Qed.

Variable fs : filesystem.

(** A [load] that returned has read and parsed the first file of every
    locale that was not cached, and cached what it parsed. *)
Lemma load_files_first_cached (files : list string) (t t1 : translator) (L : Locale)
    (f : string) :
  load_files fs files t = (Ret tt, t1) ->
  cached_locales t !! L = None ->
  first_file L files = Some f ->
  exists text v,
    read_file fs (path_of f) = Some text /\ json_loads text = Some v /\
    obj_val <$> cached_locales t1 !! L = Some v.
Proof.
  intros Hload Hnc Hfirst.
  apply find_first in Hfirst as (pre & rest & -> & Hf & Hpre).
  apply load_files_app_Ret in Hload as (ta & Hload_pre & Hload_rest).
  assert (cached_locales ta !! L = None) as Hnc'.
  { destruct (load_files_cache fs pre t L) as [_ Hother].
    rewrite Hload_pre in Hother. cbn [snd] in Hother. by rewrite (Hother Hpre). }
  revert Hload_rest. cbn [load_files]. unfold mbind, M_bind.
  destruct (load_file fs f ta) as [[[]|e] tb] eqn:E; [|done].
  intros Hload_rest.
  apply file_of_locale_true in Hf as [Hj HL].
  revert E. unfold load_file. rewrite Hj. unfold locale_of_file in HL. rewrite HL.
  unfold mbind, M_bind, modify.
  destruct (get_locale fs L (set_LOCALE_TO_FILE L f ta)) as [[d|e] tc] eqn:Eg; [|done].
  intros [= <-].
  apply get_locale_returns in Eg as (file & text & Hfile & Hread & Hjson & Hd); [|done].
  cbn in Hfile. rewrite lookup_insert_eq in Hfile. injection Hfile as <-.
  exists text, (obj_val d). split; [done|]. split; [done|].
  destruct (load_files_cache fs rest tc L) as [Hkeep _].
  rewrite Hload_rest in Hkeep. cbn [snd] in Hkeep. by rewrite (Hkeep d Hd).
Qed.

(** After a [load] that returned, a locale that has a file in the listing
    is cached, with the content of its first file when it was not cached
    before, and none of its files was read more than once. *)
Lemma load_settles (t t1 : translator) (L : Locale) (files : list string) (file : string) :
  index_wf t ->
  os_listdir fs LOCALS_PATH = Some files ->
  first_file L files = Some file ->
  load fs t = (Ret tt, t1) ->
  exists data, settled L data t1 /\
    (cached_locales t !! L = None ->
     exists text, read_file fs (path_of file) = Some text /\
                  json_loads text = Some (obj_val data)) /\
    forall f, locale_of_file f = Some L -> (reads_of f t1 <= reads_of f t + 1)%nat.
Proof.
  intros Hwf Hdir Hfirst. unfold load. rewrite Hdir. intros Hload.
  destruct (load_files_loading t fs files t t1 (loading_start t Hwf) Hload) as (Hwf1 & Hreads).
  pose proof (load_files_caches fs files t t1 Hload) as Hall.
  pose proof (List.find_some _ _ Hfirst) as [Hin Hfile].
  apply file_of_locale_true in Hfile as [Hj HL].
  rewrite List.Forall_forall in Hall.
  destruct (Hall file Hin Hj) as (L' & HL' & data & Hdata).
  assert (L' = L) as -> by congruence.
  exists data. split; [by split|]. split.
  - intros Hnc.
    destruct (load_files_first_cached files t t1 L file Hload Hnc Hfirst)
      as (text & v & Hread & Hjson & Hv).
    rewrite Hdata in Hv. cbn in Hv. injection Hv as <-. by exists text.
  - intros f Hf. by apply (Hreads f L).
Qed.
End LoadCycles.


(** C9.  When the directory lists, after files that [load] takes in, a
    [.json] file whose name starts with no locale, [load()] raises the
    [ValueError] that names this file and rolls nothing back: the
    translator it leaves is the one that a [load()] of the earlier files
    alone leaves when it returns.  For every locale of the earlier files,
    its index names the last of them that is named after the locale, and
    its cache holds the object that was cached before, or else the parsed
    content of the first of them. *)
Theorem load_is_not_atomic `{External} (fs : filesystem) (t : translator)
    (pre rest : list string) (bad : string) :
  os_listdir fs LOCALS_PATH = Some (pre ++ bad :: rest)%list ->
  (forall f : string, f ∈ pre -> endswith f ".json" = true ->
     exists L text v, locale_of_file f = Some L /\
       read_file fs (path_of f) = Some text /\ json_loads text = Some v) ->
  endswith bad ".json" = true ->
  locale_of_file bad = None ->
  exists t',
    load fs t = (Raise (ValueError (invalid_locale_file_msg bad)), t') /\
    (forall fs', os_listdir fs' LOCALS_PATH = Some pre ->
       (forall p, read_file fs' p = read_file fs p) ->
       load fs' t = (Ret tt, t')) /\
    forall (f : string) (L : Locale),
      f ∈ pre -> endswith f ".json" = true -> locale_of_file f = Some L ->
      (exists g, last_file L pre = Some g /\ LOCALE_TO_FILE t' !! L = Some g) /\
      (forall d, cached_locales t !! L = Some d -> cached_locales t' !! L = Some d) /\
      (cached_locales t !! L = None ->
       exists g text v,
         first_file L pre = Some g /\
         read_file fs (path_of g) = Some text /\ json_loads text = Some v /\
         obj_val <$> cached_locales t' !! L = Some v).
Proof.
  intros Hdir Hpre Hj Hbad.
  destruct (load_files_prefix fs pre t Hpre) as (t1 & E & _ & _).
  assert (load_files fs pre t = (Ret tt, t1)) as Hload.
  { specialize (E []). by rewrite app_nil_r in E. }
  exists t1. split; [|split].
  - unfold load. rewrite Hdir, E.
    cbn [load_files]. unfold mbind, M_bind, load_file.
    unfold locale_of_file in Hbad. by rewrite Hj, Hbad.
  - intros fs' Hdir' Hsame. unfold load. rewrite Hdir'.
    by rewrite (load_files_same_files fs fs' pre t Hsame).
  - intros f L Hin Hjson HL.
    assert (file_of_locale L f = true) as Hf by (by apply file_of_locale_true).
    split; [|split].
    + destruct (last_file_exists L pre f Hin Hf) as [g Hg]. exists g. split; [done|].
      by rewrite (load_files_index fs pre t t1 Hload), register_all_lookup, Hg.
    + intros d Hd. destruct (load_files_cache fs pre t L) as [Hkeep _].
      rewrite Hload in Hkeep. by apply Hkeep.
    + intros Hnc. destruct (first_file_exists L pre f Hin Hf) as [g Hg].
      destruct (load_files_first_cached fs pre t t1 L g Hload Hnc Hg)
        as (text & v & Hread & Hjs & Hv).
      by exists g, text, v.
Qed.

(** *** In the example world *)



Lemma load_is_not_atomic_witness :
  exists t',
    load (H := example_external) broken_fs init
    = (Raise (ValueError (invalid_locale_file_msg "klingon.json")), t') /\
    LOCALE_TO_FILE t' !! "en-US" = Some "en-US.json" /\
    obj_val <$> cached_locales t' !! "en-US" = Some en_US_doc.
Proof.
  destruct (load_is_not_atomic (H := example_external) broken_fs init
              ["en-US.json"] ["fr.json"] "klingon.json") as (t' & Hload & _ & Hkept).
  - reflexivity.
  - intros f Hin _. apply list_elem_of_singleton in Hin as ->.
    exists "en-US", "<en-US>", en_US_doc. repeat split; evaluate.
  - reflexivity.
  - reflexivity.
  - exists t'. split; [exact Hload|].
    destruct (Hkept "en-US.json" "en-US") as ((g & Hg & Hidx) & _ & Hcache);
      [by left | reflexivity | reflexivity |].
    split.
    + vm_compute in Hg. injection Hg as <-. exact Hidx.
    + destruct Hcache as (g' & text & v & Hg' & Hread & Hjson & Hv); [reflexivity|].
      vm_compute in Hg'. injection Hg' as <-.
      vm_compute in Hread. injection Hread as <-.
      vm_compute in Hjson. injection Hjson as <-. exact Hv.
Defined.

(** ** An error message that is never raised *)

Lemma other_bind {A B : Type} (r : result A) (f : A -> result B) :
  other_than_missing_key r -> (forall a, other_than_missing_key (f a)) ->
  other_than_missing_key (r ≫= f).
Proof. destruct r as [a|e]; [intros _ Hf; apply Hf|by intros He _]. Qed.

Lemma other_py_get (d k v : pyval) : other_than_missing_key (py_get d k v).
Proof. by destruct d, k. Qed.

Lemma other_seq_index {A : Type} (l : list A) (i : Z) : other_than_missing_key (seq_index l i).
Proof.
  unfold seq_index. destruct (norm_index (length l) i); [|done]. by destruct (l !! n).
Qed.

Lemma other_py_getitem (x i : pyval) : other_than_missing_key (py_getitem x i).
Proof.
  destruct x; try done; cbn [py_getitem].
  - destruct (as_index i); [|done].
    apply other_bind; [apply other_seq_index|done].
  - destruct (as_index i); [apply other_seq_index|done].
  - destruct i; try done. by destruct (assoc s d).
Qed.

Lemma other_int_of_str (s : string) : other_than_missing_key (int_of_str s).
Proof. unfold int_of_str. by destruct (py_int s). Qed.

Lemma other_messages (key : string) (l : TranslationContextLocation.t) :
  invalid_embed_key_msg key <> missing_key_msg /\
  invalid_embed_fields_key_msg key <> missing_key_msg /\
  invalid_field_type_msg key <> missing_key_msg /\
  invalid_field_msg key <> missing_key_msg /\
  missing_command_msg l <> missing_key_msg /\
  missing_index_msg <> missing_key_msg /\
  missing_option_msg <> missing_key_msg.
Proof.
  repeat split; discriminate.
Qed.

Lemma other_translate_embed (command : pyval) (key : string) :
  other_than_missing_key (translate_embed command key).
Proof.
  destruct (other_messages key TranslationContextLocation.other) as (Hk & Hf & _).
  unfold translate_embed.
  destruct (split ":" key) as [|seg [|idx [|field rest]]]; try done.
  apply other_bind; [apply other_int_of_str|]. intros i.
  apply other_bind; [apply other_py_get|]. intros embeds.
  apply other_bind; [apply other_py_getitem|]. intros embed.
  destruct (negb (truthy embed)); [done|].
  repeat (match goal with
          | |- other_than_missing_key (if ?b then _ else _) => destruct b
          | |- other_than_missing_key (get _ _) => apply other_py_get
          | |- other_than_missing_key (_ ≫= _) =>
              apply other_bind; [apply other_py_get|intros ?]
          end).
  - unfold translate_embed_fields. destruct rest as [|fi [|ft [|x more]]]; try done.
    apply other_bind; [apply other_int_of_str|]. intros j.
    apply other_bind; [apply other_py_get|]. intros fields.
    apply other_bind; [apply other_py_getitem|]. intros f.
    destruct (negb (truthy f)); [done|].
    repeat (match goal with
            | |- other_than_missing_key (if ?b then _ else _) => destruct b
            | |- other_than_missing_key (get _ _) => apply other_py_get
            end).
    by destruct (other_messages ft TranslationContextLocation.other) as (_ & _ & Ht & _).
  - by destruct (other_messages (lower field) TranslationContextLocation.other)
      as (_ & _ & _ & Hm & _).
Qed.

Lemma other_dispatch (command : pyval) (lstr : locale_str) (loc : TranslationContextLocation.t) :
  (loc = TranslationContextLocation.other -> truthy (extras_get lstr "key") = true) ->
  other_than_missing_key (dispatch command lstr loc).
Proof.
  intros Hkey. unfold dispatch.
  destruct (bool_decide (loc ∈ _)); [apply other_py_get|].
  destruct (bool_decide (loc ∈ _)); [apply other_py_get|].
  destruct (bool_decide (loc ∈ _)).
  { unfold translate_parameter.
    apply other_bind; [apply other_py_get|]. intros options.
    apply other_bind; [apply other_py_get|]. intros parameter.
    destruct (negb (truthy parameter)); [done|].
    destruct (bool_decide _); apply other_py_get. }
  destruct (bool_decide (loc = TranslationContextLocation.choice_name)).
  { unfold translate_choice. destruct (extras_get lstr "index"); try done;
      (destruct (negb (truthy (extras_get lstr "option"))); [done|];
       apply other_bind; [apply other_py_get|]; intros options;
       apply other_bind; [apply other_py_get|]; intros option;
       apply other_bind; [apply other_py_get|]; intros choices;
       destruct (negb (truthy choices)); [done|apply other_py_getitem]). }
  destruct (bool_decide (loc = TranslationContextLocation.other)) eqn:Eo; [|done].
  apply bool_decide_eq_true in Eo. specialize (Hkey Eo).
  unfold translate_other, py_or. rewrite Hkey. cbn [negb]. rewrite Hkey.
  destruct (extras_get lstr "key"); try done.
  destruct (startswith s "embed"); [apply other_translate_embed|].
  destruct (String.eqb s "content"); [apply other_py_get|done].
Qed.

(** X15.  [translate] never raises the [ValueError] whose message asks for the
    key of location [other]: a call without that key raises a [ValueError]
    without a message before the document is looked up, so the later test,
    which carries the message, is not reached with a missing key. *)
Theorem missing_key_message_is_never_raised `{External} (fs : filesystem)
    (lstr : locale_str) (L : Locale) (context : TranslationContext) (t : translator) :
  fst (translate fs lstr L context t) <> Raise (ValueError missing_key_msg) /\
  (is_Some (LOCALE_TO_FILE t !! L) ->
   truthy (resolve_command_name lstr context) = true ->
   location context = TranslationContextLocation.other ->
   truthy (extras_get lstr "key") = false ->
   translate fs lstr L context t = (Raise (ValueError EmptyString), t)).
Proof.
  split.
  - assert (other_than_missing_key (fst (translate fs lstr L context t))) as Hother.
    { unfold translate, mbind, M_bind, gets, raise.
      destruct (LOCALE_TO_FILE t !! L); [|done].
      destruct (negb (truthy (resolve_command_name lstr context))).
      { by destruct (other_messages EmptyString (location context)) as (_ & _ & _ & _ & Hc & _). }
      destruct (bool_decide (location context = TranslationContextLocation.other)
                && negb (truthy (extras_get lstr "key"))) eqn:Ek; [done|].
      unfold get_command, mbind, M_bind, lift.
      destruct (get_locale fs L t) as [[data|e] t1] eqn:Eg.
      - pose proof (other_py_get (obj_val data) (resolve_command_name lstr context) PNone)
          as Hget.
        destruct (py_get (obj_val data) (resolve_command_name lstr context) PNone)
          as [command|e]; [|done].
        destruct (negb (truthy command)); [done|]. cbn [fst].
        apply other_dispatch. intros Ho. rewrite Ho in Ek.
        rewrite bool_decide_eq_true_2 in Ek by done. cbn [andb] in Ek.
        by apply negb_false_iff in Ek.
      - cbn [fst]. revert Eg. unfold get_locale, mbind, M_bind, gets, raise, modify.
        destruct (cached_locales t !! L); [done|].
        destruct (LOCALE_TO_FILE t !! L); [|by intros [= <- _]].
        unfold open_read. destruct (read_file fs _); [|by intros [= <- _]].
        unfold loads. destruct (json_loads _); [done|by intros [= <- _]]. }
    intros E. rewrite E in Hother. by apply Hother.
  - intros [file Hfile] Hname Hloc Hkey.
    unfold translate, mbind, M_bind, gets, raise. rewrite Hfile, Hname, Hloc, Hkey.
    by rewrite bool_decide_eq_true_2.
Qed.

(** ** The keys of [translate_embeds] are read back by [translate] *)

Lemma digit_char_facts (c : ascii) (k : Z) :
  digit_value c = Some k ->
  is_space c = false /\ Ascii.eqb c "-" = false /\ Ascii.eqb c "+" = false /\
  Ascii.eqb c ":" = false.
Proof. destruct c as [[] [] [] [] [] [] [] []]; by vm_compute. Qed.

Lemma strip_no_blank (l : list ascii) :
  Forall (fun c => is_space c = false) l -> strip l = l.
Proof.
  intros Hall.
  assert (forall l', Forall (fun c => is_space c = false) l' -> lstrip l' = l') as Hl.
  { intros [|c l'] Hl'; [done|]. apply Forall_cons in Hl' as [Hc _]. cbn. by rewrite Hc. }
  unfold strip. rewrite (Hl l Hall). rewrite (Hl (rev l)).
  - apply rev_involutive.
  - by apply List.Forall_rev.
Qed.

Lemma uint_chars_digits (d : uint) :
  Forall (fun c => exists k, digit_value c = Some k)
    (list_ascii_of_string (NilEmpty.string_of_uint d)).
Proof. induction d; cbn; constructor; try done; by eexists. Qed.

Lemma uint_length (d : uint) : String.length (NilEmpty.string_of_uint d) = nb_digits d.
Proof. induction d; cbn; congruence. Qed.

Lemma parse_digits_uint (d : uint) (acc : Z) (count : nat) (b : bool) :
  0 <= acc -> d <> Nil ->
  parse_digits acc count b (list_ascii_of_string (NilEmpty.string_of_uint d))
  = Some (Z.of_nat (Nat.of_uint_acc d (Z.to_nat acc)), (count + nb_digits d)%nat).
Proof.
  revert acc count b.
  assert (forall d' acc count, 0 <= acc ->
            parse_digits acc count true (list_ascii_of_string (NilEmpty.string_of_uint d'))
            = Some (Z.of_nat (Nat.of_uint_acc d' (Z.to_nat acc)), (count + nb_digits d')%nat))
    as Hgen.
  { induction d' as [|d' IH|d' IH|d' IH|d' IH|d' IH|d' IH|d' IH|d' IH|d' IH|d' IH];
      intros acc count Hacc;
      [cbn; (apply f_equal, f_equal2; lia) | ..];
      cbn [NilEmpty.string_of_uint list_ascii_of_string parse_digits Nat.of_uint_acc nb_digits];
      match goal with
      | |- context [digit_value ?c] =>
          let v := eval vm_compute in (digit_value c) in
          change (digit_value c) with v
      end;
      cbv iota; rewrite IH by lia; rewrite Nat.tail_mul_spec;
      (apply f_equal, f_equal2; [apply f_equal, f_equal; lia | lia]). }
  intros acc count b Hacc Hd. destruct d; [done|..];
    cbn [NilEmpty.string_of_uint list_ascii_of_string parse_digits Nat.of_uint_acc nb_digits];
    match goal with
    | |- context [digit_value ?c] =>
        let v := eval vm_compute in (digit_value c) in
        change (digit_value c) with v
    end;
    cbv iota; rewrite Hgen by lia; rewrite Nat.tail_mul_spec;
    (apply f_equal, f_equal2; [apply f_equal, f_equal; lia | lia]).
Qed.

Lemma str_of_nat_chars (n : nat) :
  exists d, d <> Nil /\ str_of_nat n = NilEmpty.string_of_uint d /\ Nat.of_uint d = n.
Proof.
  unfold str_of_nat, NilZero.string_of_uint.
  pose proof (DecimalNat.Unsigned.of_to n) as Hn.
  destruct (Nat.to_uint n) as [|u|u|u|u|u|u|u|u|u|u] eqn:E;
    [by exists (D0 Nil) | ..];
    match goal with
    | |- context [NilEmpty.string_of_uint ?d] => by exists d
    end.
Qed.

(** [int(str(n))] is [n], for a number of 4300 digits at most. *)
Lemma py_int_str_of_nat (n : nat) :
  (String.length (str_of_nat n) <= max_str_digits)%nat ->
  py_int (str_of_nat n) = Some (Z.of_nat n).
Proof.
  intros Hlen. destruct (str_of_nat_chars n) as (d & Hd & Hs & Hn).
  rewrite Hs in Hlen |- *. rewrite uint_length in Hlen.
  unfold py_int. rewrite strip_no_blank.
  2:{ eapply Forall_impl; [apply uint_chars_digits|].
      intros c [k Hk]. by apply (digit_char_facts c k). }
  pose proof (uint_chars_digits d) as Hdig.
  destruct (list_ascii_of_string (NilEmpty.string_of_uint d)) as [|c r] eqn:E.
  { destruct d; [done|discriminate E..]. }
  apply Forall_cons in Hdig as [[k Hk] _].
  destruct (digit_char_facts c k Hk) as (_ & -> & -> & _).
  rewrite <- E. unfold parse_unsigned. rewrite parse_digits_uint by done.
  cbn [Nat.add]. apply Nat.leb_le in Hlen. rewrite Hlen.
  by rewrite <- Hn.
Qed.

Lemma has_char_digits (d : uint) : has_char ":" (NilEmpty.string_of_uint d) = false.
Proof. induction d; cbn; done. Qed.

Lemma str_of_nat_no_colon (n : nat) : has_char ":" (str_of_nat n) = false.
Proof. destruct (str_of_nat_chars n) as (d & _ & -> & _). apply has_char_digits. Qed.

Lemma split_no_separator (sep : ascii) (s : string) :
  has_char sep s = false -> split sep s = [s].
Proof.
  induction s as [|c s IH]; [done|]. cbn [has_char split].
  intros [Hc Hs]%orb_false_iff. by rewrite Hc, (IH Hs).
Qed.

Lemma split_embed_key (idx : nat) (field : string) :
  has_char ":" field = false ->
  split ":" (embed_key idx field) = ["embed"; str_of_nat idx; field].
Proof.
  intros Hfield. unfold embed_key.
  change ("embed:" +:+ str_of_nat idx +:+ ":" +:+ field)
    with ("embed" +:+ String ":" (str_of_nat idx +:+ String ":" field)).
  rewrite split_at_separator by done.
  rewrite split_at_separator by apply str_of_nat_no_colon.
  by rewrite split_no_separator.
Qed.

Lemma split_embed_field_key (idx field_idx : nat) (field_type : string) :
  has_char ":" field_type = false ->
  split ":" (embed_field_key idx field_idx field_type)
  = ["embed"; str_of_nat idx; "fields"; str_of_nat field_idx; field_type].
Proof.
  intros Htype. unfold embed_field_key.
  change ("embed:" +:+ str_of_nat idx +:+ ":fields:" +:+ str_of_nat field_idx +:+ ":" +:+ field_type)
    with ("embed" +:+ String ":" (str_of_nat idx +:+ String ":"
            ("fields" +:+ String ":" (str_of_nat field_idx +:+ String ":" field_type)))).
  rewrite split_at_separator by done.
  rewrite split_at_separator by apply str_of_nat_no_colon.
  rewrite split_at_separator by done.
  rewrite split_at_separator by apply str_of_nat_no_colon.
  by rewrite split_no_separator.
Qed.

Section KeyRoundTrip.
Context `{External}.
Variables (fs : filesystem) (lstr : locale_str) (L : Locale).
Variables (context : TranslationContext) (t t' : translator).

(** X16.  The key [f"embed:{idx}:<field>"] that [translate_embeds] builds for
    the title or the description of its embed number [idx] is read back
    by [translate] as this index and field: it returns that entry of
    [document.embeds[idx]], for every index whose decimal writing has 4300
    digits at most (longer ones are refused by [int()]). *)
Theorem embed_key_round_trip (d e : list (string * pyval)) (embeds : list pyval)
    (idx : nat) (field : string) :
  finds_document fs lstr L context t (PDict d) t' ->
  location context = TranslationContextLocation.other ->
  extras lstr !! "key" = Some (PStr (embed_key idx field)) ->
  (String.length (str_of_nat idx) <= max_str_digits)%nat ->
  field = "title" \/ field = "description" ->
  assoc "embeds" d = Some (PList embeds) ->
  embeds !! idx = Some (PDict e) ->
  e <> [] ->
  split ":" (embed_key idx field) = ["embed"; str_of_nat idx; field] /\
  int_of_str (str_of_nat idx) = Ret (Z.of_nat idx) /\
  translate fs lstr L context t = (Ret (default PNone (assoc field e)), t').
Proof.
  intros Hdoc Hloc Hkey Hlen Hfield Hembeds He Hne.
  assert (has_char ":" field = false) as Hcolon by (by destruct Hfield as [-> | ->]).
  pose proof (split_embed_key idx field Hcolon) as Hsplit.
  pose proof (py_int_str_of_nat idx Hlen) as Hint.
  split; [done|]. split; [unfold int_of_str; by rewrite Hint|].
  rewrite (translate_embed_at fs lstr L context t t' (PDict d) (embed_key idx field)
             "embed" (str_of_nat idx) field [] Hdoc Hloc Hkey eq_refl Hsplit
             (Z.of_nat idx) (PList embeds) (PDict e) Hint).
  - rewrite (truthy_PDict_nonempty e Hne). cbn [negb].
    destruct Hfield as [-> | ->]; cbn [lower lower_ascii String.eqb Ascii.eqb Bool.eqb];
      by rewrite get_dict.
  - by apply get_or_present.
  - rewrite getitem_list. by apply seq_index_in_range.
Qed.

(** X17.  The key [f"embed:{idx}:fields:{field_idx}:name"] (or [:value]) that
    [translate_embeds] builds for field number [field_idx] of its embed
    number [idx] is read back by [translate] as these two indices: it
    returns that entry of [document.embeds[idx].fields[field_idx]], for
    all indices of 4300 digits at most. *)
Theorem embed_field_key_round_trip (d e f : list (string * pyval)) (embeds fields : list pyval)
    (idx field_idx : nat) (field_type : string) :
  finds_document fs lstr L context t (PDict d) t' ->
  location context = TranslationContextLocation.other ->
  extras lstr !! "key" = Some (PStr (embed_field_key idx field_idx field_type)) ->
  (String.length (str_of_nat idx) <= max_str_digits)%nat ->
  (String.length (str_of_nat field_idx) <= max_str_digits)%nat ->
  field_type = "name" \/ field_type = "value" ->
  assoc "embeds" d = Some (PList embeds) ->
  embeds !! idx = Some (PDict e) ->
  assoc "fields" e = Some (PList fields) ->
  fields !! field_idx = Some (PDict f) ->
  split ":" (embed_field_key idx field_idx field_type)
  = ["embed"; str_of_nat idx; "fields"; str_of_nat field_idx; field_type] /\
  int_of_str (str_of_nat idx) = Ret (Z.of_nat idx) /\
  int_of_str (str_of_nat field_idx) = Ret (Z.of_nat field_idx) /\
  translate fs lstr L context t = (Ret (default PNone (assoc field_type f)), t').
Proof.
  intros Hdoc Hloc Hkey Hlen Hlen' Htype Hembeds He Hfields Hf.
  assert (has_char ":" field_type = false) as Hcolon by (by destruct Htype as [-> | ->]).
  pose proof (split_embed_field_key idx field_idx field_type Hcolon) as Hsplit.
  pose proof (py_int_str_of_nat idx Hlen) as Hint.
  pose proof (py_int_str_of_nat field_idx Hlen') as Hint'.
  split; [done|]. split; [unfold int_of_str; by rewrite Hint|].
  split; [unfold int_of_str; by rewrite Hint'|].
  rewrite (translate_embed_at fs lstr L context t t' (PDict d)
             (embed_field_key idx field_idx field_type)
             "embed" (str_of_nat idx) "fields" [str_of_nat field_idx; field_type]
             Hdoc Hloc Hkey eq_refl Hsplit
             (Z.of_nat idx) (PList embeds) (PDict e) Hint).
  - rewrite (truthy_PDict_binding _ _ _ Hfields).
    cbn [negb lower lower_ascii String.eqb Ascii.eqb Bool.eqb].
    unfold translate_embed_fields, int_of_str. rewrite Hint', bind_Ret.
    rewrite (get_or_present _ _ _ _ Hfields), bind_Ret.
    rewrite getitem_list, (seq_index_in_range _ _ _ Hf), bind_Ret.
    destruct f as [|kv f']; [by destruct Htype as [-> | ->]|].
    cbn [truthy negb].
    destruct Htype as [-> | ->]; cbn [String.eqb Ascii.eqb Bool.eqb]; by rewrite get_dict.
  - by apply get_or_present.
  - rewrite getitem_list. by apply seq_index_in_range.
Qed.
End KeyRoundTrip.

(** ** The bulk helpers *)

Section Helpers.
Context `{External} `{Builtins}.
Variables (fs : filesystem) (L : Locale) (interaction : Interaction).
Hypothesis Hforward : forwards_to fs L interaction.

Local Abbreviation context :=
  {| location := TranslationContextLocation.other;
     data := interaction_command interaction |}.

Lemma translate_content_after (content : string) (kw : gmap string pyval)
    (t t1 : translator) (r : result pyval) :
  interaction_translate interaction (keyed content "content")
    (interaction_command interaction) t = (r, t1) ->
  translate_content interaction content kw t =
    (translated ← r;
     if truthy translated && negb (bool_decide (kw = ∅))
     then py_format translated kw
     else Ret (py_or translated (PStr content)), t1).
Proof.
  intros Hcall. unfold translate_content, mbind at 1, M_bind. rewrite Hcall.
  destruct r as [v|e]; [|done]. cbn. by destruct (truthy v && _).
Qed.

Lemma do_translate_after (value key : string) (kw : gmap string pyval)
    (t t1 : translator) (r : result pyval) :
  value <> EmptyString ->
  interaction_translate interaction (keyed value key)
    (interaction_command interaction) t = (r, t1) ->
  do_translate interaction kw (Some value) key t =
    (translated ← r; py_format (py_or translated (PStr value)) kw, t1).
Proof.
  intros Hne Hcall. unfold do_translate. destruct value as [|c value']; [done|].
  unfold mbind at 1, M_bind. rewrite Hcall. by destruct r.
Qed.

(** X18.  [translate_content] on an interaction that hands its strings to the
    translator, when the document of its command is found: without a
    [content] entry (or with an empty one) the content comes back as it
    is, its placeholders not replaced even when keywords are given; with
    an entry and no keyword the entry comes back as it is; with an entry
    and keywords the result is that of [str.format] on the entry. *)
Theorem translate_content_by_document (content : string) (kw : gmap string pyval)
    (d : list (string * pyval)) (t t' : translator) :
  finds_document fs (keyed content "content") L context t (PDict d) t' ->
  (truthy (default PNone (assoc "content" d)) = false ->
   translate_content interaction content kw t = (Ret (PStr content), t')) /\
  (forall s, assoc "content" d = Some (PStr s) -> s <> EmptyString ->
     (kw = ∅ -> translate_content interaction content kw t = (Ret (PStr s), t')) /\
     (kw <> ∅ ->
      translate_content interaction content kw t
      = (s' ← str_format s kw; Ret (PStr s'), t'))).
Proof.
  intros Hdoc.
  assert (interaction_translate interaction (keyed content "content")
            (interaction_command interaction) t
          = (Ret (default PNone (assoc "content" d)), t')) as Hcall.
  { rewrite Hforward.
    rewrite (translate_reaches_dispatch _ _ _ _ _ _ _ Hdoc), dispatch_other by done.
    rewrite (translate_other_key _ _ "content") by (done || apply lookup_singleton_eq).
    change (startswith "content" "embed") with false.
    change ("content" =? "content")%string with true. cbv iota.
    by rewrite get_dict. }
  rewrite (translate_content_after content kw t t' _ Hcall), bind_Ret. split.
  - intros Hfalse. rewrite Hfalse. cbn [andb]. unfold py_or. by rewrite Hfalse.
  - intros s Hs Hne. rewrite Hs. cbn [default from_option]. unfold id.
    rewrite (truthy_PStr_nonempty s Hne). cbn [andb]. split.
    + intros ->. rewrite bool_decide_eq_true_2 by done. cbn [negb].
      unfold py_or. by rewrite (truthy_PStr_nonempty s Hne).
    + intros Hkw. by rewrite bool_decide_eq_false_2.
Qed.

(** X19.  For a locale that has no file, the two helpers fall back differently:
    [translate_content] returns the content as it is, its placeholders not
    replaced whatever keywords are given, while [do_translate] returns the
    result of [str.format] on the original value. *)
Theorem helpers_fall_back_differently (value key : string) (kw : gmap string pyval)
    (t : translator) :
  LOCALE_TO_FILE t !! L = None ->
  value <> EmptyString ->
  translate_content interaction value kw t = (Ret (PStr value), t) /\
  do_translate interaction kw (Some value) key t
  = (s' ← str_format value kw; Ret (PStr s'), t).
Proof.
  intros Hnone Hne.
  assert (forall lstr, interaction_translate interaction lstr
                         (interaction_command interaction) t = (Ret PNone, t)) as Hcall.
  { intros lstr. rewrite Hforward. unfold translate, mbind, M_bind, gets. by rewrite Hnone. }
  split.
  - by rewrite (translate_content_after value kw t t _ (Hcall _)).
  - rewrite (do_translate_after value key kw t t _ Hne (Hcall _)), bind_Ret.
    unfold py_or. cbn [truthy]. reflexivity.
Qed.

(** X20.  On an interaction that has no command, for a locale that has a file:
    [translate_content], and [do_translate] on a text that is not empty,
    raise the [ValueError] that asks for the command name, since the keys
    they build carry none; [do_translate] on a missing or empty text
    returns [None] without a call of the translator. *)
Theorem helpers_need_a_command (value key : string) (kw : gmap string pyval)
    (t : translator) :
  is_Some (LOCALE_TO_FILE t !! L) ->
  truthy (data_command_name (interaction_command interaction)) = false ->
  value <> EmptyString ->
  translate_content interaction value kw t
  = (Raise (ValueError (missing_command_msg TranslationContextLocation.other)), t) /\
  do_translate interaction kw (Some value) key t
  = (Raise (ValueError (missing_command_msg TranslationContextLocation.other)), t) /\
  do_translate interaction kw None key t = (Ret PNone, t) /\
  do_translate interaction kw (Some EmptyString) key t = (Ret PNone, t).
Proof.
  intros [file Hfile] Hdata Hne.
  assert (forall k, interaction_translate interaction (keyed value k)
                      (interaction_command interaction) t
                    = (Raise (ValueError (missing_command_msg
                                            TranslationContextLocation.other)), t)) as Hcall.
  { intros k. rewrite Hforward. unfold translate, mbind, M_bind, gets. rewrite Hfile.
    unfold resolve_command_name, py_or, extras_get, keyed. cbn [extras data].
    rewrite lookup_singleton_ne by done. cbn [default from_option truthy].
    by rewrite Hdata. }
  split; [|split; [|done]].
  - by rewrite (translate_content_after value kw t t _ (Hcall _)).
  - by rewrite (do_translate_after value key kw t t _ Hne (Hcall _)).
Qed.
End Helpers.

(** * The further properties in the example worlds *)

Lemma translate_without_command_name_witness :
  translate (H := example_external) example_fs (with_key "content") "ja"
    (no_command TranslationContextLocation.other) loaded = (Ret PNone, loaded) /\
  translate (H := example_external) example_fs (with_key "content") "en-US"
    (no_command TranslationContextLocation.other) loaded
  = (Raise (ValueError (missing_command_msg TranslationContextLocation.other)), loaded).
Proof.
  split.
  - apply (translate_without_command_name (H := example_external) example_fs
             (with_key "content") "ja" (no_command TranslationContextLocation.other) loaded);
      evaluate.
  - apply (translate_without_command_name (H := example_external) example_fs
             (with_key "content") "en-US" (no_command TranslationContextLocation.other) loaded);
      evaluate.
Defined.

Lemma translate_absent_document_witness :
  translate (H := example_external) example_fs (choice "mode" 7) "en-US"
    (on_command "pong" TranslationContextLocation.choice_name) loaded = (Ret PNone, loaded).
Proof.
  apply (translate_absent_document (H := example_external) example_fs (choice "mode" 7)
           "en-US" (on_command "pong" TranslationContextLocation.choice_name) loaded
           {| obj_id := 0; obj_val := en_US_doc |}
           [("ping", ping_doc); ("bare", bare_doc); ("hollow", hollow_doc)] "pong");
    evaluate.
Defined.

Lemma translate_on_non_object_witness :
  translate (H := stray_external) stray_fs (parameter "x") "de"
    (on_command "ping" TranslationContextLocation.command_name) loaded_stray
  = (Raise AttributeError, loaded_stray).
Proof.
  apply (translate_on_non_object (H := stray_external) stray_fs (parameter "x") "de"
           (on_command "ping" TranslationContextLocation.command_name) loaded_stray
           {| obj_id := 1; obj_val := PList [PStr "ping"] |}); evaluate.
Defined.

Lemma translate_name_and_description_witness :
  translate (H := example_external) example_fs (parameter "x") "en-US"
    (on_command "ping" TranslationContextLocation.group_description) loaded
  = (Ret (PStr "Checks latency"), loaded) /\
  translate (H := example_external) example_fs (parameter "x") "en-US"
    (on_command "ping" TranslationContextLocation.group_name) loaded
  = (Ret PNone, loaded).
Proof.
  split.
  - destruct (translate_name_and_description (H := example_external) example_fs
                (parameter "x") "en-US"
                (on_command "ping" TranslationContextLocation.group_description)
                loaded loaded ping_entries) as (_ & Hdescription & _); [found|].
    apply Hdescription. by right.
  - destruct (translate_name_and_description (H := example_external) example_fs
                (parameter "x") "en-US"
                (on_command "ping" TranslationContextLocation.group_name)
                loaded loaded ping_entries) as (_ & _ & Hgroup); [found|].
    by apply Hgroup.
Defined.

Lemma translate_other_keys_witness :
  translate (H := example_external) example_fs (with_key "content") "en-US"
    (on_command "ping" TranslationContextLocation.other) loaded
  = (Ret (PStr "Pong {ms}"), loaded) /\
  translate (H := example_external) example_fs (with_key "title") "en-US"
    (on_command "ping" TranslationContextLocation.other) loaded
  = (Ret PNone, loaded).
Proof.
  split.
  - destruct (translate_other_keys (H := example_external) example_fs (with_key "content")
                "en-US" (on_command "ping" TranslationContextLocation.other)
                loaded loaded ping_entries) as (Hcontent & _); [found | evaluate |].
    by apply Hcontent.
  - destruct (translate_other_keys (H := example_external) example_fs (with_key "title")
                "en-US" (on_command "ping" TranslationContextLocation.other)
                loaded loaded ping_entries) as (_ & Hother & _); [found | evaluate |].
    by apply (Hother "title").
Defined.

Lemma translate_embed_scalar_fields_witness :
  translate (H := example_external) example_fs (with_key "embedded:0:FOOTER:x") "en-US"
    (on_command "ping" TranslationContextLocation.other) loaded
  = (Ret (PStr "bye"), loaded).
Proof.
  destruct (translate_embed_scalar_fields (H := example_external) example_fs
              (with_key "embedded:0:FOOTER:x") "en-US"
              (on_command "ping" TranslationContextLocation.other) loaded loaded
              ping_doc "embedded:0:FOOTER:x" "embedded" "0" "FOOTER" ["x"]
              ltac:(found) ltac:(evaluate) ltac:(evaluate) ltac:(evaluate) ltac:(evaluate)
              0 (PList [PDict ping_embed]) ping_embed)
    as (_ & _ & Hfooter & _); [evaluate ..|].
  destruct Hfooter as [_ Htext]; [evaluate|].
  by apply (Htext [("text", PStr "bye")]).
Defined.

Lemma translate_embed_field_types_witness :
  translate (H := example_external) example_fs (with_key "embed:0:fields:2:NAME") "en-US"
    (on_command "ping" TranslationContextLocation.other) loaded
  = (Raise (ValueError (invalid_field_type_msg "NAME")), loaded).
Proof.
  destruct (translate_embed_field_types (H := example_external) example_fs
              (with_key "embed:0:fields:2:NAME") "en-US"
              (on_command "ping" TranslationContextLocation.other) loaded loaded
              ping_doc "embed:0:fields:2:NAME" "embed" "0" "fields" ["2"; "NAME"]
              ltac:(found) ltac:(evaluate) ltac:(evaluate) ltac:(evaluate) ltac:(evaluate)
              0 (PList [PDict ping_embed]) ping_embed)
    as [_ Htypes]; [evaluate ..|].
  destruct (Htypes "2" "NAME" 2 (PList ping_fields) [("name", PStr "n2"); ("value", PStr "v2")])
    as [_ Hfull]; [evaluate ..|].
  destruct Hfull as (_ & _ & Hother); [evaluate|].
  by apply Hother.
Defined.

Lemma translate_embed_index_witness :
  translate (H := example_external) example_fs (with_key "embed:1:title") "en-US"
    (on_command "bare" TranslationContextLocation.other) loaded
  = (Raise IndexError, loaded) /\
  translate (H := example_external) example_fs (with_key "embed:-1:title") "en-US"
    (on_command "ping" TranslationContextLocation.other) loaded
  = (Ret (PStr "Pong"), loaded).
Proof.
  split.
  - destruct (translate_embed_index (H := example_external) example_fs
                (with_key "embed:1:title") "en-US"
                (on_command "bare" TranslationContextLocation.other) loaded loaded
                bare_doc "embed:1:title" "embed" "1" "title" []
                ltac:(found) ltac:(evaluate) ltac:(evaluate) ltac:(evaluate) ltac:(evaluate)
                bare_entries 1) as [Habsent _]; [evaluate ..|].
    destruct Habsent as [_ Hother]; [evaluate|]. by apply Hother.
  - destruct (translate_embed_index (H := example_external) example_fs
                (with_key "embed:-1:title") "en-US"
                (on_command "ping" TranslationContextLocation.other) loaded loaded
                ping_doc "embed:-1:title" "embed" "-1" "title" []
                ltac:(found) ltac:(evaluate) ltac:(evaluate) ltac:(evaluate) ltac:(evaluate)
                ping_entries (-1)) as [_ Hlist]; [evaluate ..|].
    destruct (Hlist [PDict ping_embed]) as [_ Hend]; [evaluate|].
    apply (Hend ping_embed); evaluate.
Defined.

Lemma get_locale_failure_is_not_cached_witness :
  fst (get_locale (H := stray_external) corrupt_fs "fr" loaded_corrupt) = Raise JSONDecodeError /\
  reads_of "fr.json" loaded_corrupt = 1%nat /\
  reads_of "fr.json"
    (snd (get_locale (H := stray_external) corrupt_fs "fr"
            (snd (get_locale (H := stray_external) corrupt_fs "fr" loaded_corrupt))))
  = 3%nat.
Proof.
  destruct (get_locale_failure_is_not_cached (H := stray_external) corrupt_fs "fr" "fr.json"
              loaded_corrupt) as [_ Hjson]; [evaluate ..|].
  destruct (Hjson "<garbage>") as (Hfirst & _ & _ & _ & _ & Hreads); [evaluate ..|].
  split; [exact Hfirst|]. split; [evaluate|]. rewrite Hreads. evaluate.
Defined.

Lemma file_is_named_by_its_first_segment_witness :
  locale_of_file (H := stray_external) "en-US.old.json" = Some "en-US".
Proof.
  apply (file_is_named_by_its_first_segment (H := stray_external) "en-US" "old.json").
  - cbn. tauto.
  - reflexivity.
Defined.

Lemma load_ignores_other_entries_witness :
  load (H := stray_external) stray_json_fs init = load (H := stray_external) stray_fs init.
Proof.
  apply (load_ignores_other_entries (H := stray_external) stray_fs stray_json_fs
           ["en-US.json"; "notes.json.bak"; "en-US.old.json"; "de.json"]);
    reflexivity.
Defined.

Lemma load_twice_witness :
  load (H := stray_external) stray_fs loaded_stray = (Ret tt, loaded_stray).
Proof.
  apply (load_twice (H := stray_external) stray_fs init loaded_stray). evaluate.
Defined.


Lemma embed_key_round_trip_witness :
  translate (H := example_external) example_fs (with_key (embed_key 0 "title")) "en-US"
    (on_command "ping" TranslationContextLocation.other) loaded
  = (Ret (PStr "Pong"), loaded).
Proof.
  apply (embed_key_round_trip (H := example_external) example_fs
           (with_key (embed_key 0 "title")) "en-US"
           (on_command "ping" TranslationContextLocation.other) loaded loaded
           ping_entries ping_embed [PDict ping_embed] 0 "title");
    first [found | evaluate | by left | by vm_compute; lia].
Defined.

Lemma embed_field_key_round_trip_witness :
  translate (H := example_external) example_fs (with_key (embed_field_key 0 2 "value")) "en-US"
    (on_command "ping" TranslationContextLocation.other) loaded
  = (Ret (PStr "v2"), loaded).
Proof.
  apply (embed_field_key_round_trip (H := example_external) example_fs
           (with_key (embed_field_key 0 2 "value")) "en-US"
           (on_command "ping" TranslationContextLocation.other) loaded loaded
           ping_entries ping_embed [("name", PStr "n2"); ("value", PStr "v2")]
           [PDict ping_embed] ping_fields 0 2 "value");
    first [found | evaluate | by right | by vm_compute; lia].
Defined.

Lemma translate_content_by_document_witness :
  translate_content (H := example_builtins)
    (interaction_of (H := example_external) example_fs "en-US" (DataCommand "ping"))
    "Pong in {ms}" {[ "ms" := PInt 3 ]} loaded
  = (Ret (PStr "Pong {ms} (formatted)"), loaded) /\
  translate_content (H := example_builtins)
    (interaction_of (H := example_external) example_fs "en-US" (DataCommand "bare"))
    "Pong in {ms}" {[ "ms" := PInt 3 ]} loaded
  = (Ret (PStr "Pong in {ms}"), loaded).
Proof.
  split.
  - destruct (translate_content_by_document (H := example_external) (H0 := example_builtins)
                example_fs "en-US"
                (interaction_of (H := example_external) example_fs "en-US" (DataCommand "ping"))
                ltac:(by intros lstr d)
                "Pong in {ms}" {[ "ms" := PInt 3 ]} ping_entries loaded loaded)
      as [_ Hentry]; [found|].
    destruct (Hentry "Pong {ms}") as [_ Hkw]; [evaluate ..|].
    rewrite Hkw; [done|]. intros Hempty.
    by apply (f_equal (fun m : gmap string pyval => m !! "ms")) in Hempty.
  - destruct (translate_content_by_document (H := example_external) (H0 := example_builtins)
                example_fs "en-US"
                (interaction_of (H := example_external) example_fs "en-US" (DataCommand "bare"))
                ltac:(by intros lstr d)
                "Pong in {ms}" {[ "ms" := PInt 3 ]} bare_entries loaded loaded)
      as [Hnone _]; [found|].
    by apply Hnone.
Defined.

Lemma helpers_fall_back_differently_witness :
  translate_content (H := example_builtins)
    (interaction_of (H := example_external) example_fs "ja" (DataCommand "ping"))
    "Pong in {ms}" {[ "ms" := PInt 3 ]} loaded
  = (Ret (PStr "Pong in {ms}"), loaded) /\
  do_translate (H := example_builtins)
    (interaction_of (H := example_external) example_fs "ja" (DataCommand "ping"))
    {[ "ms" := PInt 3 ]} (Some "Pong in {ms}") (embed_key 0 "title") loaded
  = (Ret (PStr "Pong in {ms} (formatted)"), loaded).
Proof.
  apply (helpers_fall_back_differently (H := example_external) (H0 := example_builtins)
           example_fs "ja"
           (interaction_of (H := example_external) example_fs "ja" (DataCommand "ping"))
           ltac:(by intros lstr d)
           "Pong in {ms}" (embed_key 0 "title") {[ "ms" := PInt 3 ]} loaded); evaluate.
Defined.

Lemma helpers_need_a_command_witness :
  translate_content (H := example_builtins)
    (interaction_of (H := example_external) example_fs "en-US" (DataOther PNone))
    "Pong" ∅ loaded
  = (Raise (ValueError (missing_command_msg TranslationContextLocation.other)), loaded).
Proof.
  apply (helpers_need_a_command (H := example_external) (H0 := example_builtins)
           example_fs "en-US"
           (interaction_of (H := example_external) example_fs "en-US" (DataOther PNone))
           ltac:(by intros lstr d)
           "Pong" "content" ∅ loaded); evaluate.
Defined.

(** * Properties of the helpers of [utils/extra.py] *)

(** ** [groupby] *)

Section Groupby.
Context {A : Type}.

Lemma slices_when_positive (l : list A) (n : Z) :
  0 < n -> slice_to l n = take (Z.to_nat n) l /\ slice_from l n = drop (Z.to_nat n) l.
Proof.
  intros Hn. unfold slice_to, slice_from.
  by replace (0 <=? n) with true by (symmetry; apply Z.leb_le; lia).
Qed.

(** With a number that is not positive, the rest [iterable[number:]] of a
    list that is not empty is not empty. *)
Lemma slice_from_no_progress (l : list A) (n : Z) :
  n <= 0 -> l <> [] -> slice_from l n <> [].
Proof.
  intros Hn Hl. unfold slice_from. intros Hnil.
  apply (f_equal length) in Hnil. cbn in Hnil.
  assert (0 < length l)%nat by (destruct l; [done|cbn; lia]).
  destruct (0 <=? n) eqn:E; rewrite length_drop in Hnil.
  - apply Z.leb_le in E. lia.
  - lia.
Qed.

Lemma groupby_loop_more_fuel (fuel fuel' : nat) (resp : list (list A)) (iterable : list A)
    (number : Z) (r : list (list A)) :
  (fuel <= fuel')%nat ->
  groupby_loop fuel resp iterable number = Some r ->
  groupby_loop fuel' resp iterable number = Some r.
Proof.
  revert fuel' resp iterable.
  induction fuel as [|fuel IH]; intros fuel' resp iterable Hle; [done|].
  destruct fuel' as [|fuel']; [lia|]. cbn [groupby_loop].
  destruct (slice_from iterable number); [done|]. apply IH. lia.
Qed.

Lemma groupby_loop_chunks (number : Z) (fuel : nat) (iterable : list A)
    (resp : list (list A)) :
  0 < number -> (length iterable < fuel)%nat ->
  exists chunks,
    groupby_loop fuel resp iterable number = Some (resp ++ chunks)%list /\
    concat chunks = iterable /\
    chunks <> [] /\
    (forall i c, chunks !! i = Some c ->
       (S i < length chunks -> Z.of_nat (length c) = number)%nat /\
       Z.of_nat (length c) <= number /\
       (iterable <> [] -> c <> [])).
Proof.
  intros Hn. revert iterable resp.
  induction fuel as [|fuel IH]; intros iterable resp Hfuel; [lia|].
  cbn [groupby_loop]. destruct (slices_when_positive iterable number Hn) as [-> ->].
  destruct (drop (Z.to_nat number) iterable) as [|x rest] eqn:Ed.
  - (* the last group *)
    assert (length iterable <= Z.to_nat number)%nat as Hlen.
    { apply (f_equal length) in Ed. rewrite length_drop in Ed. cbn in Ed. lia. }
    exists [take (Z.to_nat number) iterable]. rewrite take_ge by done.
    split; [done|]. split; [cbn; by rewrite app_nil_r|]. split; [done|].
    intros i c Hc. destruct i; [|done]. injection Hc as <-. cbn.
    split; [lia|]. split; [lia|done].
  - (* a full group, and the loop goes on *)
    assert (Z.to_nat number < length iterable)%nat as Hlen.
    { apply (f_equal length) in Ed. rewrite length_drop in Ed. cbn in Ed. lia. }
    destruct (IH (x :: rest) (resp ++ [take (Z.to_nat number) iterable])%list)
      as (chunks & Hloop & Hcat & Hne & Hchunks).
    { rewrite <- Ed, length_drop. lia. }
    exists (take (Z.to_nat number) iterable :: chunks).
    split; [by rewrite Hloop, <- app_assoc|].
    split; [cbn; by rewrite Hcat, <- Ed, take_drop|].
    split; [done|].
    intros i c Hc. destruct i as [|i]; cbn in Hc.
    + injection Hc as <-. rewrite length_take, Nat.min_l by lia.
      split; [lia|]. split; [lia|]. intros _ Hnil.
      apply (f_equal length) in Hnil. rewrite length_take in Hnil. cbn in Hnil. lia.
    + destruct (Hchunks i c Hc) as (Hfull & Hle & Hnonempty).
      split; [cbn; intros; apply Hfull; lia|]. split; [done|].
      intros _. by apply Hnonempty.
Qed.

(** X21.  With a positive [number], [groupby] returns (whenever the loop is
    given more turns than the list has items): the groups, put end to end,
    are the list; every group but the last has exactly [number] items and
    the last has [number] at most; and no group is empty unless the list
    is, in which case the result is one empty group. *)
Theorem groupby_splits_the_list (iterable : list A) (number : Z) :
  0 < number ->
  exists chunks,
    (forall fuel, (length iterable < fuel)%nat ->
                  groupby fuel iterable number = Some chunks) /\
    concat chunks = iterable /\
    (forall i c, chunks !! i = Some c ->
       (S i < length chunks -> Z.of_nat (length c) = number)%nat /\
       Z.of_nat (length c) <= number /\
       (iterable <> [] -> c <> [])) /\
    (iterable = [] -> chunks = [[]]).
Proof.
  intros Hn.
  destruct (groupby_loop_chunks number (S (length iterable)) iterable [] Hn)
    as (chunks & Hloop & Hcat & Hne & Hchunks); [lia|].
  exists chunks. split; [|split; [done|split; [done|]]].
  - intros fuel Hfuel. unfold groupby.
    by apply (groupby_loop_more_fuel (S (length iterable)) fuel); [lia|].
  - intros ->. cbn [groupby_loop length] in Hloop.
    destruct (slices_when_positive (@nil A) number Hn) as [E1 E2].
    rewrite E1, E2, take_nil, drop_nil in Hloop. by injection Hloop as <-.
Qed.

(** X22.  With a [number] that is zero or negative, [groupby] returns one empty
    group on the empty list and never returns on any other list: the rest
    [iterable[number:]] stays a list that is not empty, so that the loop
    does not reach its [break], however many turns it is given. *)
Theorem groupby_without_progress (iterable : list A) (number : Z) :
  number <= 0 ->
  (iterable = [] -> forall fuel, groupby (S fuel) iterable number = Some [[]]) /\
  (iterable <> [] -> forall fuel, groupby fuel iterable number = None).
Proof.
  intros Hn. split.
  - intros -> fuel. unfold groupby. cbn [groupby_loop].
    unfold slice_to, slice_from. by destruct (0 <=? number); rewrite take_nil, drop_nil.
  - intros Hne fuel. unfold groupby. generalize (@nil (list A)) as resp.
    revert iterable Hne. induction fuel as [|fuel IH]; intros iterable Hne resp; [done|].
    cbn [groupby_loop].
    pose proof (slice_from_no_progress iterable number Hn Hne) as Hrest.
    destruct (slice_from iterable number) as [|x rest]; [done|].
    by apply IH.
Qed.
End Groupby.

(** ** [bit_generator] *)

(** X23.  For every number that [random.randint(0, 255)] can draw,
    [bit_generator] gives its hexadecimal digits, which read back as the
    number, without padding: one digit for a number below 16 and two
    otherwise. *)
Theorem bit_generator_width (r : Z) :
  0 <= r <= 255 ->
  String.length (bit_generator r) = (if r <? 16 then 1%nat else 2%nat) /\
  HexString.to_Z ("0x" +:+ bit_generator r) = r.
Proof.
  intros Hr.
  pose (check := fun k : nat =>
          let r := Z.of_nat k in
          Nat.eqb (String.length (bit_generator r)) (if r <? 16 then 1%nat else 2%nat)
          && Z.eqb (HexString.to_Z ("0x" +:+ bit_generator r)) r).
  assert (forallb check (seq 0 256) = true) as Hall by by vm_compute.
  rewrite forallb_forall in Hall.
  specialize (Hall (Z.to_nat r)). rewrite in_seq in Hall.
  assert (check (Z.to_nat r) = true) as Hcheck by (apply Hall; lia).
  unfold check in Hcheck. rewrite Z2Nat.id in Hcheck by lia.
  apply andb_true_iff in Hcheck as [Hlen Hback].
  by apply Nat.eqb_eq in Hlen; apply Z.eqb_eq in Hback.
Qed.

Lemma bit_generator_width_witness :
  bit_generator 10 = "a" /\ String.length (bit_generator 10) = 1%nat /\
  String.length (bit_generator 200) = 2%nat.
Proof.
  split; [reflexivity|]. split.
  - by apply (bit_generator_width 10).
  - by apply (bit_generator_width 200).
Defined.

Lemma groupby_splits_the_list_witness :
  groupby 6 [1; 2; 3; 4; 5] 2 = Some [[1; 2]; [3; 4]; [5]].
Proof.
  destruct (groupby_splits_the_list [1; 2; 3; 4; 5] 2) as (chunks & Hreturns & _);
    [lia|].
  rewrite Hreturns by (cbn; lia).
  specialize (Hreturns 6%nat ltac:(cbn; lia)). vm_compute in Hreturns. congruence.
Defined.

Lemma groupby_without_progress_witness :
  groupby 1000 [1; 2; 3] 0 = None /\ groupby 1000 [1; 2; 3] (-2) = None /\
  groupby 1 (@nil Z) 0 = Some [[]].
Proof.
  split; [|split].
  - by apply (groupby_without_progress [1; 2; 3] 0).
  - by apply (groupby_without_progress [1; 2; 3] (-2)).
  - by apply (groupby_without_progress (@nil Z) 0).
Defined.

(** ** [get_required_npm] *)

Lemma lstrip_char_head (c : ascii) (s : list ascii) : head (lstrip_char c s) <> Some c.
Proof.
  induction s as [|x s IH]; [done|]. cbn [lstrip_char].
  destruct (Ascii.eqb x c) eqn:E; [done|].
  apply Ascii.eqb_neq in E. cbn. congruence.
Qed.

Lemma lstrip_char_suffix (c : ascii) (s : list ascii) :
  exists pre, s = (pre ++ lstrip_char c s)%list.
Proof.
  induction s as [|x s [pre IH]]; [by exists []|]. cbn [lstrip_char].
  destruct (Ascii.eqb x c); [|by exists []].
  exists (x :: pre). cbn. by rewrite <- IH.
Qed.

(** What [strip("^")] returns neither starts nor ends with the
    character. *)
Lemma strip_char_ends (c : ascii) (s : string) :
  head (list_ascii_of_string (strip_char c s)) <> Some c /\
  last (list_ascii_of_string (strip_char c s)) <> Some c.
Proof.
  unfold strip_char. rewrite list_ascii_of_string_of_list_ascii.
  set (l := lstrip_char c (list_ascii_of_string s)).
  pose proof (lstrip_char_head c (list_ascii_of_string s)) as Hhead. fold l in Hhead.
  pose proof (lstrip_char_head c (rev l)) as Hlast.
  destruct (lstrip_char_suffix c (rev l)) as [pre Hpre].
  set (m := lstrip_char c (rev l)) in *.
  rewrite rev_alt in Hpre. rewrite rev_alt. fold (reverse l) in Hpre. fold (reverse m).
  rewrite head_reverse, last_reverse. split; [|done].
  destruct (last m) as [x|] eqn:Em; [|done].
  assert (last (reverse l) = Some x) as Hx by (rewrite Hpre, last_app; by rewrite Em).
  rewrite last_reverse in Hx. congruence.
Qed.

Lemma assoc_dict_set (k k' : string) (v : pyval) (d : list (string * pyval)) :
  assoc k (dict_set k' v d) = if String.eqb k k' then Some v else assoc k d.
Proof.
  induction d as [|[k0 v0] d IH]; cbn [dict_set assoc]; [done|].
  destruct (String.eqb k' k0) eqn:E0; cbn [assoc].
  - apply String.eqb_eq in E0 as ->. by destruct (String.eqb k k0).
  - rewrite IH. destruct (String.eqb k k') eqn:E1; [|done].
    apply String.eqb_eq in E1 as ->. by rewrite E0.
Qed.

Lemma assoc_not_in (k : string) (d : list (string * pyval)) : k ∉ d.*1 -> assoc k d = None.
Proof.
  induction d as [|[k0 v0] d IH]; [done|]. cbn [assoc fmap list_fmap fst].
  rewrite not_elem_of_cons. intros [Hne Hin].
  destruct (String.eqb k k0) eqn:E; [|by apply IH].
  by apply String.eqb_eq in E.
Qed.

Lemma items_from_elem (seen : list string) (d : list (string * pyval)) (k : string) (v : pyval) :
  (k, v) ∈ items_from seen d -> k ∉ seen.
Proof.
  revert seen. induction d as [|[k0 v0] d IH]; intros seen; cbn [items_from].
  - by rewrite elem_of_nil.
  - case_bool_decide as Hk0; [by apply IH|].
    rewrite elem_of_cons. intros [[= -> ->]|Hin]; [done|].
    apply IH in Hin. by apply not_elem_of_cons in Hin as [_ ?].
Qed.

Lemma items_from_NoDup (seen : list string) (d : list (string * pyval)) :
  NoDup (items_from seen d).*1.
Proof.
  revert seen. induction d as [|[k0 v0] d IH]; intros seen; cbn [items_from].
  - constructor.
  - case_bool_decide as Hk0; [by apply IH|].
    cbn [fmap list_fmap fst]. apply NoDup_cons. split; [|by apply IH].
    rewrite list_elem_of_fmap. intros [[k v] [Hk Hin]]. cbn in Hk. subst k.
    apply items_from_elem in Hin. apply Hin. by left.
Qed.

Lemma assoc_items_from (seen : list string) (d : list (string * pyval)) (k : string) :
  assoc k (items_from seen d) = if bool_decide (k ∈ seen) then None else assoc k d.
Proof.
  revert seen. induction d as [|[k0 v0] d IH]; intros seen; cbn [items_from assoc].
  - by case_bool_decide.
  - case_bool_decide as Hk0.
    + rewrite IH. case_bool_decide as Hk; [done|].
      destruct (String.eqb k k0) eqn:E; [|done].
      by apply String.eqb_eq in E as ->.
    + cbn [assoc]. rewrite IH.
      destruct (String.eqb k k0) eqn:E.
      * apply String.eqb_eq in E as ->. by rewrite bool_decide_eq_false_2.
      * apply String.eqb_neq in E.
        case_bool_decide as H1; case_bool_decide as H2; try done.
        -- apply elem_of_cons in H1 as [?|?]; done.
        -- exfalso. apply H1. by right.
Qed.

Lemma assoc_items (d : list (string * pyval)) (k : string) :
  assoc k (items_from [] d) = assoc k d.
Proof. rewrite assoc_items_from. rewrite bool_decide_eq_false_2; [done|]. apply not_elem_of_nil. Qed.

Lemma strip_dependencies_lookup (its acc : list (string * pyval)) :
  NoDup its.*1 ->
  (forall lib ver, assoc lib its = Some ver -> is_str ver) ->
  exists out, strip_dependencies its acc = Ret out /\
    (forall lib s, assoc lib its = Some (PStr s) ->
       assoc lib out = Some (PStr (strip_char "^" s))) /\
    (forall lib, assoc lib its = None -> assoc lib out = assoc lib acc).
Proof.
  revert acc. induction its as [|[k ver] its IH]; intros acc Hnd Hstr.
  - exists acc. by repeat split.
  - cbn [fmap list_fmap fst] in Hnd. apply NoDup_cons in Hnd as [Hk Hnd].
    apply assoc_not_in in Hk.
    destruct (Hstr k ver) as [s ->]; [cbn [assoc]; by rewrite String.eqb_refl|].
    cbn [strip_dependencies].
    destruct (IH (dict_set k (PStr (strip_char "^" s)) acc) Hnd) as (out & Hout & Hsome & Hnone).
    { intros lib ver Hlib. apply (Hstr lib). cbn [assoc].
      destruct (String.eqb lib k) eqn:E; [|done].
      apply String.eqb_eq in E as ->. congruence. }
    exists out. split; [done|]. split.
    + intros lib s0. cbn [assoc]. destruct (String.eqb lib k) eqn:E.
      * apply String.eqb_eq in E as ->. intros [= ->].
        by rewrite (Hnone k Hk), assoc_dict_set, String.eqb_refl.
      * apply Hsome.
    + intros lib. cbn [assoc]. destruct (String.eqb lib k) eqn:E; [done|].
      intros Hlib. by rewrite (Hnone lib Hlib), assoc_dict_set, E.
Qed.

Lemma strip_dependencies_raises (its acc : list (string * pyval)) (lib : string) (ver : pyval) :
  (lib, ver) ∈ its -> ~ is_str ver -> strip_dependencies its acc = Raise AttributeError.
Proof.
  intros Hin Hver. revert acc. induction its as [|[k v] its IH]; intros acc.
  - by apply elem_of_nil in Hin.
  - cbn [strip_dependencies].
    destruct v as [| | | |s| |]; try reflexivity.
    apply elem_of_cons in Hin as [[= -> ->]|Hin]; [|by apply IH].
    destruct Hver. by exists s.
Qed.

Lemma items_from_assoc (d : list (string * pyval)) (k : string) (v : pyval) :
  assoc k d = Some v -> (k, v) ∈ items_from [] d.
Proof.
  rewrite <- assoc_items. generalize (items_from [] d). intros l.
  induction l as [|[k0 v0] l IH]; cbn [assoc]; [done|].
  destruct (String.eqb k k0) eqn:E.
  - apply String.eqb_eq in E as ->. intros [= ->]. by left.
  - intros H. right. by apply IH.
Qed.

Lemma getitem_dict_present (d : list (string * pyval)) (k : string) (v : pyval) :
  assoc k d = Some v -> py_getitem (PDict d) (PStr k) = Ret v.
Proof. intros E. cbn [py_getitem]. by rewrite E. Qed.

Lemma getitem_dict_absent (d : list (string * pyval)) (k : string) :
  assoc k d = None -> py_getitem (PDict d) (PStr k) = Raise (KeyError (PStr k)).
Proof. intros E. cbn [py_getitem]. by rewrite E. Qed.

Lemma get_or_dict (d : list (string * pyval)) (k : string) (default : pyval) :
  get_or (PDict d) k default = Ret (from_option id default (assoc k d)).
Proof. reflexivity. Qed.

Section Npm.
Variables (data tags versions version_data : list (string * pyval)) (latest : string).
Hypothesis Htags : assoc "dist-tags" data = Some (PDict tags).
Hypothesis Hlatest : assoc "latest" tags = Some (PStr latest).
Hypothesis Hversions : assoc "versions" data = Some (PDict versions).
Hypothesis Hversion : assoc latest versions = Some (PDict version_data).

Lemma get_required_npm_after :
  get_required_npm (PDict data) =
    (name ← py_getitem (PDict version_data) (PStr "name");
     description ← py_getitem (PDict version_data) (PStr "description");
     _dependencies ← get_or (PDict version_data) "dependencies" (PDict []);
     its ← py_items _dependencies;
     dependencies ← strip_dependencies its [];
     Ret (PDict [("latest_version", PStr latest);
                 ("next_version", default PNone (assoc "next" tags));
                 ("name", name);
                 ("description", description);
                 ("authors", from_option id (default PNone (assoc "maintainers" data))
                               (assoc "author" data));
                 ("license", default PNone (assoc "license" version_data));
                 ("dependencies", PDict dependencies)])).
Proof.
  unfold get_required_npm.
  rewrite (getitem_dict_present _ _ _ Htags), bind_Ret.
  rewrite (getitem_dict_present _ _ _ Hlatest), !bind_Ret.
  rewrite (get_dict tags "next"), bind_Ret.
  rewrite (getitem_dict_present _ _ _ Hversions), bind_Ret.
  rewrite (getitem_dict_present _ _ _ Hversion), bind_Ret.
  destruct (py_getitem (PDict version_data) (PStr "name")) as [name|e]; [|done].
  rewrite !bind_Ret.
  destruct (py_getitem (PDict version_data) (PStr "description")) as [description|e]; [|done].
  rewrite !bind_Ret, (get_dict data "maintainers"), bind_Ret.
  rewrite (get_or_dict data "author"), bind_Ret.
  rewrite (get_dict version_data "license"), bind_Ret. reflexivity.
Qed.

(** X24.  For a registry document whose latest version has a name and a
    description, and whose dependencies (none when the key is absent) are
    an object of strings, [get_required_npm] returns the seven fields:
    [next_version], [license] and [authors] are [None] when the document
    has not got them, [authors] is the maintainers when there is no
    author, and the dependencies are the same libraries, each with its
    version without the carets at its ends. *)
Theorem get_required_npm_returns (name description : pyval) (deps : list (string * pyval)) :
  assoc "name" version_data = Some name ->
  assoc "description" version_data = Some description ->
  from_option id (PDict []) (assoc "dependencies" version_data) = PDict deps ->
  (forall lib ver, assoc lib deps = Some ver -> is_str ver) ->
  exists out,
    get_required_npm (PDict data) =
      Ret (PDict [("latest_version", PStr latest);
                  ("next_version", default PNone (assoc "next" tags));
                  ("name", name);
                  ("description", description);
                  ("authors", from_option id (default PNone (assoc "maintainers" data))
                                (assoc "author" data));
                  ("license", default PNone (assoc "license" version_data));
                  ("dependencies", PDict out)]) /\
    (forall lib s, assoc lib deps = Some (PStr s) ->
       assoc lib out = Some (PStr (strip_char "^" s))) /\
    (forall lib, assoc lib deps = None -> assoc lib out = None) /\
    (forall lib v, assoc lib out = Some v ->
       exists s, v = PStr s /\
         head (list_ascii_of_string s) <> Some "^"%char /\
         last (list_ascii_of_string s) <> Some "^"%char).
Proof.
  intros Hname Hdesc Hdeps Hstr.
  destruct (strip_dependencies_lookup (items_from [] deps) []) as (out & Hout & Hsome & Hnone).
  { apply items_from_NoDup. }
  { intros lib ver. rewrite assoc_items. apply Hstr. }
  exists out. split; [|split; [|split]].
  - rewrite get_required_npm_after.
    rewrite (getitem_dict_present _ _ _ Hname), bind_Ret.
    rewrite (getitem_dict_present _ _ _ Hdesc), bind_Ret.
    rewrite get_or_dict, bind_Ret, Hdeps.
    cbn [py_items]. by rewrite bind_Ret, Hout.
  - intros lib s Hlib. apply Hsome. by rewrite assoc_items.
  - intros lib Hlib. rewrite Hnone; [done|]. by rewrite assoc_items.
  - intros lib v Hv.
    destruct (assoc lib deps) as [ver|] eqn:Hlib.
    + destruct (Hstr lib ver Hlib) as [s ->].
      rewrite (Hsome lib s) in Hv by (by rewrite assoc_items).
      injection Hv as <-. eexists. split; [done|]. apply strip_char_ends.
    + rewrite Hnone in Hv by (by rewrite assoc_items). done.
Qed.

(** X25.  The description is required: for a latest version that has a
    name but no description, [get_required_npm] raises
    [KeyError("description")], whatever else the document has. *)
Theorem get_required_npm_needs_description (name : pyval) :
  assoc "name" version_data = Some name ->
  assoc "description" version_data = None ->
  get_required_npm (PDict data) = Raise (KeyError (PStr "description")).
Proof.
  intros Hname Hdesc. rewrite get_required_npm_after.
  rewrite (getitem_dict_present _ _ _ Hname), bind_Ret.
  by rewrite (getitem_dict_absent _ _ Hdesc).
Qed.

(** X26.  The default of the dependencies is only for an absent key: when
    the latest version binds [dependencies] to something that is not an
    object (null, say), or to an object one of whose versions is not a
    string, [get_required_npm] raises [AttributeError]. *)
Theorem get_required_npm_bad_dependencies (name description d : pyval) :
  assoc "name" version_data = Some name ->
  assoc "description" version_data = Some description ->
  assoc "dependencies" version_data = Some d ->
  (forall deps, d <> PDict deps) \/
  (exists deps lib ver, d = PDict deps /\ assoc lib deps = Some ver /\ ~ is_str ver) ->
  get_required_npm (PDict data) = Raise AttributeError.
Proof.
  intros Hname Hdesc Hd Hbad. rewrite get_required_npm_after.
  rewrite (getitem_dict_present _ _ _ Hname), bind_Ret.
  rewrite (getitem_dict_present _ _ _ Hdesc), bind_Ret.
  rewrite (get_or_present _ _ _ _ Hd), bind_Ret.
  destruct Hbad as [Hbad|(deps & lib & ver & -> & Hlib & Hver)].
  { destruct d as [| | | | | |deps]; try reflexivity. by destruct (Hbad deps). }
  cbn [py_items]. rewrite bind_Ret.
  by rewrite (strip_dependencies_raises _ _ lib ver (items_from_assoc _ _ _ Hlib) Hver).
Qed.

End Npm.

Lemma get_required_npm_returns_witness :
  get_required_npm left_pad =
    Ret (PDict [("latest_version", PStr "1.3.0");
                ("next_version", PNone);
                ("name", PStr "left-pad");
                ("description", PStr "String left pad");
                ("authors", PList [PDict [("name", PStr "az")]]);
                ("license", PStr "WTFPL");
                ("dependencies", PDict [("a", PStr "1.2.3"); ("b", PStr "2.0")])]).
Proof.
  destruct (get_required_npm_returns
              (left_pad_data left_pad_version) left_pad_tags
              (left_pad_versions left_pad_version) left_pad_version "1.3.0"
              eq_refl eq_refl eq_refl eq_refl
              (PStr "left-pad") (PStr "String left pad")
              [("a", PStr "^1.2.3"); ("b", PStr "^^2.0^")]
              eq_refl eq_refl eq_refl) as (out & Hreturns & _).
  - intros lib ver. cbn [assoc].
    destruct (String.eqb lib "a"); [intros [= <-]; by eexists|].
    destruct (String.eqb lib "b"); [intros [= <-]; by eexists|done].
  - vm_compute in Hreturns. vm_compute. congruence.
Defined.

Lemma get_required_npm_needs_description_witness :
  get_required_npm (PDict (left_pad_data undescribed_version))
  = Raise (KeyError (PStr "description")).
Proof.
  by apply (get_required_npm_needs_description
              (left_pad_data undescribed_version) left_pad_tags
              (left_pad_versions undescribed_version) undescribed_version "1.3.0"
              eq_refl eq_refl eq_refl eq_refl (PStr "left-pad")).
Defined.

Lemma get_required_npm_bad_dependencies_witness :
  get_required_npm (PDict (left_pad_data null_dependencies_version)) = Raise AttributeError /\
  get_required_npm (PDict (left_pad_data numbered_version)) = Raise AttributeError.
Proof.
  split.
  - apply (get_required_npm_bad_dependencies
             (left_pad_data null_dependencies_version) left_pad_tags
             (left_pad_versions null_dependencies_version) null_dependencies_version "1.3.0"
             eq_refl eq_refl eq_refl eq_refl
             (PStr "left-pad") (PStr "String left pad") PNone eq_refl eq_refl eq_refl).
    by left.
  - apply (get_required_npm_bad_dependencies
             (left_pad_data numbered_version) left_pad_tags
             (left_pad_versions numbered_version) numbered_version "1.3.0"
             eq_refl eq_refl eq_refl eq_refl
             (PStr "left-pad") (PStr "String left pad")
             (PDict [("a", PStr "^1.2.3"); ("b", PInt 2)]) eq_refl eq_refl eq_refl).
    right. exists [("a", PStr "^1.2.3"); ("b", PInt 2)], "b", (PInt 2).
    split; [done|]. split; [done|]. by intros [s Hs].
Defined.
